(** * kszab0/serve: a shallow embedding of the HTTP file server

    The repository has two variants of one program: [serve.go] (GET only)
    and the extended variant (GET and POST, where a POST streams a zip
    archive of the selected entries).  Both share [handleGet], [serveDir]
    and the shape of [handler]; they differ in the listing template and in
    the POST branch.

    Layout of this development:
    - [filepath]: the functions of Go's [path/filepath] (Unix flavour) the
      program calls: [Clean], [Join], [Base], [Rel];
    - [Fmt]: decimal printing and the time layout [2006-01-02 15:04:05];
    - the operating-system interface [OS] (open, stat, read, read-dir) and a
      concrete instance over a directory tree;
    - [ResponseWriter], [http.Error], the zip writer;
    - the listing template and its execution;
    - the handlers of both variants;
    - package [flag] for the two flags of the program, [fromArgs], [CLI];
    - the theorems.

    Not modelled: logging ([log.Printf], [log.Println]), closing of file
    handles and the listening socket ([http.ListenAndServe] is a parameter
    of [CLI]). *)

From Stdlib Require Import String Ascii List ZArith Lia Bool Arith.
From stdpp Require Import gmap strings.
Import ListNotations.
Local Open Scope string_scope.

(* ===================================================================== *)
(** * Path manipulation: Go's [path/filepath] on Unix *)
(* ===================================================================== *)

Module filepath.

(** [os.IsPathSeparator] on Unix: the slash only. *)
Definition is_sep (c : ascii) : bool := Ascii.eqb c "/"%char.

Definition slash : string := "/".
Definition dot : string := ".".
Definition dotdot : string := "..".

(** The elements of a path: the maximal runs between separators.  A path
    with [k] separators has [k+1] elements, some of them possibly empty. *)
Fixpoint split (s : string) : list string :=
  match s with
  | EmptyString => [EmptyString]
  | String c r =>
      if is_sep c then EmptyString :: split r
      else match split r with
           | h :: t => String c h :: t
           | [] => [String c EmptyString]
           end
  end.

(** [strings.Join(elems, "/")]. *)
Fixpoint join (l : list string) : string :=
  match l with
  | [] => EmptyString
  | [x] => x
  | x :: r => x ++ slash ++ join r
  end.

Definition rooted (s : string) : bool :=
  match s with
  | String c _ => is_sep c
  | EmptyString => false
  end.

(** One iteration of the loop of [filepath.Clean], on a whole element.
    [out] is the output written so far, as a stack of elements with the
    last one first.  Go keeps an index [dotdot] below which the output may
    not be backtracked: it is the leading slash of a rooted path, or a
    leading run of [..] elements of a relative one.  On the stack this reads:
    the stack is empty, or its top is [..]. *)
Definition clean_step (r : bool) (out : list string) (seg : string)
  : list string :=
  if String.eqb seg EmptyString then out          (* empty path element *)
  else if String.eqb seg dot then out             (* . element *)
  else if String.eqb seg dotdot then              (* .. element *)
    match out with
    | top :: rest =>
        if String.eqb top dotdot
        then (if r then out else seg :: out)
        else rest                                 (* can backtrack *)
    | [] => if r then [] else [seg]               (* cannot backtrack *)
    end
  else seg :: out.                                (* real path element *)

Definition clean_elems (r : bool) (segs : list string) : list string :=
  fold_left (clean_step r) segs [].

(** The string of a cleaned path: [/a/b] when rooted, [a/b] otherwise, and
    [.] for the empty relative path. *)
Definition render (r : bool) (out : list string) : string :=
  if r then slash ++ join (rev out)
  else match out with
       | [] => dot
       | _ => join (rev out)
       end.

(** [filepath.Clean]. *)
Definition Clean (path : string) : string :=
  if String.eqb path EmptyString then dot
  else render (rooted path) (clean_elems (rooted path) (split path)).

(** [filepath.Join] of two elements: empty leading elements are skipped,
    the rest is joined with a slash and cleaned; all empty gives the empty
    string. *)
Definition Join (a b : string) : string :=
  if negb (String.eqb a EmptyString) then Clean (a ++ slash ++ b)
  else if negb (String.eqb b EmptyString) then Clean b
  else EmptyString.

(** Trailing separators removed, as the first loop of [filepath.Base]. *)
Fixpoint strip_trailing (s : string) : string :=
  match s with
  | EmptyString => EmptyString
  | String c r =>
      let r' := strip_trailing r in
      if is_sep c && String.eqb r' EmptyString then EmptyString
      else String c r'
  end.

(** [filepath.Base]. *)
Definition Base (path : string) : string :=
  if String.eqb path EmptyString then dot
  else
    let e := List.last (split (strip_trailing path)) EmptyString in
    if String.eqb e EmptyString then slash else e.

(** The elements the comparison loop of [filepath.Rel] walks through: it
    stops as soon as an index reaches the end of its string, so a string
    that ends with a separator has no empty element after it, and the empty
    string has no element at all. *)
Definition ends_with_sep (s : string) : bool :=
  String.eqb (List.last (split s) dot) EmptyString.

Definition elems (s : string) : list string :=
  if String.eqb s EmptyString then []
  else if ends_with_sep s then List.removelast (split s)
  else split s.

(** The comparison loop of [Rel]: skip the common leading elements.  The
    first component is the base element at which the loop broke off, when
    it did (the loop also ends when either side is used up). *)
Fixpoint rel_strip (bs ts : list string)
  : option string * list string * list string :=
  match bs, ts with
  | b :: bs', t :: ts' =>
      if String.eqb t b then rel_strip bs' ts'
      else (Some b, bs, ts)
  | _, _ => (None, bs, ts)
  end.

(** [filepath.Rel]; [None] is its error "Rel: can't make ... relative to". *)
Definition Rel (basepath targpath : string) : option string :=
  let base := Clean basepath in
  let targ := Clean targpath in
  if String.eqb targ base then Some dot
  else
    let base := if String.eqb base dot then EmptyString else base in
    if negb (Bool.eqb (rooted base) (rooted targ)) then None
    else
      match rel_strip (elems base) (elems targ) with
      | (brk, bs, ts) =>
          if match brk with
             | Some b => String.eqb b dotdot
             | None => false
             end
          then None
          else
            match bs with
            | _ :: _ =>
                let ups := join (map (fun _ => dotdot) bs) in
                match ts with
                | [] => Some ups
                | _ => Some (ups ++ slash ++ join ts)
                end
            | [] => Some (join ts)
            end
      end.

End filepath.


(* ===================================================================== *)
(** * Printing: decimal integers and the time layout *)
(* ===================================================================== *)

Module Fmt.

Definition digit (n : N) : ascii := ascii_of_N (48 + n mod 10).

Fixpoint utoa_fuel (fuel : nat) (n : N) (acc : string) : string :=
  match fuel with
  | O => acc
  | S f =>
      let acc' := String (digit n) acc in
      if (n / 10 =? 0)%N then acc' else utoa_fuel f (n / 10)%N acc'
  end.

(** Decimal digits of a natural number, most significant first. *)
Definition utoa (n : N) : string := utoa_fuel (S (N.size_nat n)) n EmptyString.

(** What the template prints for an [int64]: [strconv]-style decimal. *)
Definition itoa (z : Z) : string :=
  if (z <? 0)%Z then "-" ++ utoa (Z.to_N (- z)) else utoa (Z.to_N z).

Fixpoint zeros (k : nat) : string :=
  match k with
  | O => EmptyString
  | S k' => String "0"%char (zeros k')
  end.

(** [appendInt] of package [time]: sign, then the digits padded with
    leading zeros to [width]. *)
Definition appendInt (x : Z) (width : nat) : string :=
  let u := utoa (Z.to_N (Z.abs x)) in
  (if (x <? 0)%Z then "-" else EmptyString)
  ++ zeros (width - String.length u) ++ u.

(** A wall-clock reading, already broken down in the local zone. *)
Record Time := mkTime {
  t_year : Z; t_month : Z; t_day : Z;
  t_hour : Z; t_minute : Z; t_second : Z
}.

(** [t.Format("2006-01-02 15:04:05")]. *)
Definition Format (t : Time) : string :=
  appendInt (t_year t) 4 ++ "-" ++ appendInt (t_month t) 2 ++ "-"
  ++ appendInt (t_day t) 2 ++ " " ++ appendInt (t_hour t) 2 ++ ":"
  ++ appendInt (t_minute t) 2 ++ ":" ++ appendInt (t_second t) 2.




End Fmt.


(* ===================================================================== *)
(** * The operating system *)
(* ===================================================================== *)

(** Go's [error] values, by their message. *)
Definition error := string.

Inductive result (A : Type) : Type :=
| Ok (a : A)
| Err (e : error).
Arguments Ok {A} a.
Arguments Err {A} e.

(** [os.FileInfo]: the four methods the program calls. *)
Record FileInfo := mkFileInfo {
  fi_Name : string;
  fi_Size : Z;
  fi_ModTime : Fmt.Time;
  fi_IsDir : bool
}.

(** The calls the program makes into packages [os], [io] and [ioutil].
    - [os_Open]: [os.Open];
    - [f_Stat]: [File.Stat];
    - [f_ReadAll]: what a reader of the file delivers until it ends: the
      bytes, and the error that ended the stream when it was not the end of
      the file;
    - [ReadDir]: [ioutil.ReadDir], the entries in the order it returns
      them. *)
Record OS := mkOS {
  fd : Type;
  os_Open : string -> result fd;
  f_Stat : fd -> result FileInfo;
  f_ReadAll : fd -> string * option error;
  ReadDir : string -> result (list FileInfo)
}.

(** ** A concrete file system: a tree of directories and files *)

Module Tree.
Import filepath.

#[warnings="-register-all"]
Inductive node : Type :=
| File (data : string) (mtime : Fmt.Time)
| Dir (mtime : Fmt.Time) (entries : list (string * node)).

Definition is_dir (n : node) : bool :=
  match n with Dir _ _ => true | File _ _ => false end.

Fixpoint lookup_child (es : list (string * node)) (name : string)
  : option node :=
  match es with
  | [] => None
  | (k, c) :: r => if String.eqb k name then Some c else lookup_child r name
  end.

(** The node reached from [n] by following the names of [loc]. *)
Fixpoint node_at (n : node) (loc : list string) : option node :=
  match loc with
  | [] => Some n
  | x :: r =>
      match n with
      | Dir _ es =>
          match lookup_child es x with
          | Some c => node_at c r
          | None => None
          end
      | File _ _ => None
      end
  end.

(** One step of path resolution by the kernel.  A location is the list of
    names from the root of the tree.  Every element of a path, also an
    empty one, [.] and [..], is looked up in a directory. *)
Definition walk_step (root : node) (st : option (list string)) (seg : string)
  : option (list string) :=
  match st with
  | None => None
  | Some loc =>
      match node_at root loc with
      | Some (Dir _ es) =>
          if String.eqb seg EmptyString || String.eqb seg dot then Some loc
          else if String.eqb seg dotdot then Some (List.removelast loc)
          else match lookup_child es seg with
               | Some _ => Some (loc ++ [seg])%list
               | None => None
               end
      | _ => None
      end
  end.

(** The location a path names, for a process whose working directory is
    [cwd].  There are no symbolic links. *)
Definition resolve (root : node) (cwd : list string) (path : string)
  : option (list string) :=
  if String.eqb path EmptyString then None
  else fold_left (walk_step root) (split path)
         (Some (if rooted path then [] else cwd)).

Definition lookup (root : node) (cwd : list string) (path : string)
  : option node :=
  match resolve root cwd path with
  | Some loc => node_at root loc
  | None => None
  end.

(** Directory size as [Stat] reports it is system-dependent; the program
    never prints it. *)
Definition info (name : string) (n : node) : FileInfo :=
  match n with
  | File data mt => mkFileInfo name (Z.of_nat (String.length data)) mt false
  | Dir mt _ => mkFileInfo name 4096 mt true
  end.

Definition ENOENT (op path : string) : error :=
  op ++ " " ++ path ++ ": no such file or directory".
Definition ENOTDIR (op path : string) : error :=
  op ++ " " ++ path ++ ": not a directory".
Definition EISDIR (path : string) : error :=
  "read " ++ path ++ ": is a directory".

Definition os (root : node) (cwd : list string) : OS :=
  {| fd := string * node;
     os_Open := fun path =>
       match lookup root cwd path with
       | Some n => Ok (path, n)
       | None => Err (ENOENT "open" path)
       end;
     f_Stat := fun f => Ok (info (Base (fst f)) (snd f));
     f_ReadAll := fun f =>
       match snd f with
       | File data _ => (data, None)
       | Dir _ _ => (EmptyString, Some (EISDIR (fst f)))
       end;
     ReadDir := fun path =>
       match lookup root cwd path with
       | Some (Dir _ es) => Ok (map (fun e => info (fst e) (snd e)) es)
       | Some (File _ _) => Err (ENOTDIR "readdirent" path)
       | None => Err (ENOENT "open" path)
       end |}.

End Tree.

(* ===================================================================== *)
(** * The HTTP response and the zip stream *)
(* ===================================================================== *)

(** What reaches the client, write by write.  The bytes of a zip stream
    are kept abstract: the local header that opens an entry, the data of
    the entry, and the central directory that [Close] writes. *)
Inductive chunk : Type :=
| Bytes (s : string)
| ZipHeader (name : string)
| ZipData (s : string)
| ZipEnd.

(** [http.ResponseWriter].  [w_Header] is the header map the handler
    edits; [w_wrote] is the status line and the copy of the header map that
    went out with it, once [WriteHeader] has run; on a broken connection
    every [Write] fails and delivers nothing. *)
Record ResponseWriter := mkRW {
  w_Header : gmap string string;
  w_wrote : option (nat * gmap string string);
  w_body : list chunk;
  w_broken : bool
}.

Definition newResponse (broken : bool) : ResponseWriter :=
  mkRW ∅ None [] broken.

Definition Header_Set (k v : string) (w : ResponseWriter) : ResponseWriter :=
  mkRW (<[k := v]> (w_Header w)) (w_wrote w) (w_body w) (w_broken w).

Definition Header_Del (k : string) (w : ResponseWriter) : ResponseWriter :=
  mkRW (delete k (w_Header w)) (w_wrote w) (w_body w) (w_broken w).

(** Only the first [WriteHeader] counts. *)
Definition WriteHeader (code : nat) (w : ResponseWriter) : ResponseWriter :=
  match w_wrote w with
  | Some _ => w
  | None => mkRW (w_Header w) (Some (code, w_Header w)) (w_body w) (w_broken w)
  end.

Definition StatusOK : nat := 200.
Definition StatusNotFound : nat := 404.
Definition StatusMethodNotAllowed : nat := 405.
Definition StatusInternalServerError : nat := 500.

Definition EPIPE : error := "write: broken pipe".

(** [w.Write]: sends the status line first when it has not gone out. *)
Definition Write (c : chunk) (w : ResponseWriter)
  : ResponseWriter * option error :=
  let w := WriteHeader StatusOK w in
  if w_broken w then (w, Some EPIPE)
  else (mkRW (w_Header w) (w_wrote w) (w_body w ++ [c]) (w_broken w), None).

(** The response as the client sees it when the handler has returned. *)
Definition status (w : ResponseWriter) : nat :=
  match w_wrote w with
  | Some (code, _) => code
  | None => StatusOK
  end.

Definition sent_header (w : ResponseWriter) : gmap string string :=
  match w_wrote w with
  | Some (_, h) => h
  | None => w_Header w
  end.

(** The text of the body: the plain writes, in order. *)
Fixpoint body_text (b : list chunk) : string :=
  match b with
  | [] => EmptyString
  | Bytes s :: r => s ++ body_text r
  | _ :: r => body_text r
  end.

Definition newline : string := String (ascii_of_nat 10) EmptyString.
Definition dq : string := String (ascii_of_nat 34) EmptyString.

(** [http.Error]. *)
Definition http_Error (w : ResponseWriter) (msg : string) (code : nat)
  : ResponseWriter :=
  let w := Header_Del "Content-Length" w in
  let w := Header_Set "Content-Type" "text/plain; charset=utf-8" w in
  let w := Header_Set "X-Content-Type-Options" "nosniff" w in
  let w := WriteHeader code w in
  fst (Write (Bytes (msg ++ newline)) w).

(** [io.Copy(dst, src)]: the bytes the source delivers are written to the
    destination; nothing is written when there are none.  The result is the
    first error met, of the write or of the read. *)
Definition io_Copy (write : string -> ResponseWriter -> ResponseWriter * option error)
    (src : string * option error) (w : ResponseWriter)
  : ResponseWriter * option error :=
  if String.eqb (fst src) EmptyString then (w, snd src)
  else match write (fst src) w with
       | (w', Some e) => (w', Some e)
       | (w', None) => (w', snd src)
       end.

(** ** The zip writer.  It writes through to the response; its own buffer
    is not modelled. *)
Definition zip_Create (zw : ResponseWriter) (name : string)
  : ResponseWriter * option error := Write (ZipHeader name) zw.

Definition zip_Write (data : string) (zw : ResponseWriter)
  : ResponseWriter * option error := Write (ZipData data) zw.

(** [zw.Close()], whose error the program drops. *)
Definition zip_Close (zw : ResponseWriter) : ResponseWriter :=
  fst (Write ZipEnd zw).

(** The stream of a zip archive with the given entries (name, content). *)
Definition zip_entry (e : string * string) : list chunk :=
  if String.eqb (snd e) EmptyString then [ZipHeader (fst e)]
  else [ZipHeader (fst e); ZipData (snd e)].

Definition zip_stream (es : list (string * string)) : list chunk :=
  concat (map zip_entry es) ++ [ZipEnd].

(* ===================================================================== *)
(** * The listing template *)
(* ===================================================================== *)

(** The row of the listing, [type file struct]. *)
Record file := mkFile {
  Path : string;
  Name : string;
  Size : Z;
  ModTime : string;
  IsDir : bool
}.

(** The fields of [file] a template prints. *)
Inductive field : Type := FPath | FName | FSize | FModTime.

(** The fragment of [text/template] the listing uses: text, the printing
    of a field, [{{if not .IsDir}} ... {{end}}] inside a row and
    [{{range .Files}} ... {{end}}] around the rows. *)
Inductive inode : Type :=
| IText (s : string)
| IPrint (f : field).

Inductive rnode : Type :=
| RText (s : string)
| RPrint (f : field)
| RIfNotIsDir (body : list inode).

Inductive pnode : Type :=
| PText (s : string)
| PPrintPath
| PRange (body : list rnode).

(** Package [text/template] prints a string as it is (no escaping) and an
    integer in decimal. *)
Definition print_field (f : field) (x : file) : string :=
  match f with
  | FPath => Path x
  | FName => Name x
  | FSize => Fmt.itoa (Size x)
  | FModTime => ModTime x
  end.

Definition exec_inode (x : file) (n : inode) : string :=
  match n with
  | IText s => s
  | IPrint f => print_field f x
  end.

Definition exec_rnode (x : file) (n : rnode) : list string :=
  match n with
  | RText s => [s]
  | RPrint f => [print_field f x]
  | RIfNotIsDir body => if negb (IsDir x) then map (exec_inode x) body else []
  end.

Definition exec_row (body : list rnode) (x : file) : list string :=
  flat_map (exec_rnode x) body.

Definition exec_pnode (path : string) (files : list file) (n : pnode)
  : list string :=
  match n with
  | PText s => [s]
  | PPrintPath => [path]
  | PRange body => flat_map (exec_row body) files
  end.

(** The writes [t.Execute] makes, one per node reached, in order. *)
Definition exec (t : list pnode) (path : string) (files : list file)
  : list string :=
  flat_map (exec_pnode path files) t.

(** The writes are made one after the other; the first that fails ends the
    execution with its error. *)
Fixpoint write_all (ps : list string) (w : ResponseWriter)
  : ResponseWriter * option error :=
  match ps with
  | [] => (w, None)
  | p :: r =>
      match Write (Bytes p) w with
      | (w', Some e) => (w', Some e)
      | (w', None) => write_all r w'
      end
  end.

Definition Execute (t : list pnode) (w : ResponseWriter) (path : string)
    (files : list file) : ResponseWriter * option error :=
  write_all (exec t path files) w.

(* ===================================================================== *)
(** * The program *)
(* ===================================================================== *)

Record app := mkApp {
  dir : string;
  quiet : bool;
  addr : string
}.

(** [*http.Request]: the method, [r.URL.Path], and what [r.ParseForm()]
    followed by [r.Form["files"]] gives. *)
Record Request := mkRequest {
  Method : string;
  URL_Path : string;
  Form_files : result (list string)
}.

Definition MethodGet : string := "GET".
Definition MethodPost : string := "POST".

(** The code the two variants share, for a listing template [tpl]. *)
Section Shared.
Variable tpl : list pnode.
Variable sys : OS.

Definition toFile (path : string) (f : FileInfo) : file :=
  {| Name := fi_Name f;
     Path := filepath.Join path (fi_Name f);
     Size := fi_Size f;
     ModTime := Fmt.Format (fi_ModTime f);
     IsDir := fi_IsDir f |}.

Definition serveDir (w : ResponseWriter) (path : string)
    (files : list FileInfo) : ResponseWriter * option error :=
  let fs := map (toFile path) files in
  Execute tpl w path fs.

Definition handleGet (a : app) (w : ResponseWriter) (r : Request)
  : ResponseWriter * option error :=
  let urlPath := filepath.Clean (URL_Path r) in
  let dirPath := filepath.Join (dir a) urlPath in
  match os_Open sys dirPath with
  | Err e => (w, Some e)
  | Ok f =>
      match f_Stat sys f with
      | Err e => (w, Some e)
      | Ok info =>
          if fi_IsDir info then
            match ReadDir sys dirPath with
            | Err e => (w, Some e)
            | Ok files =>
                let w := fst (serveDir w urlPath files) in
                (w, None)
            end
          else
            io_Copy (fun d w => Write (Bytes d) w) (f_ReadAll sys f) w
      end
  end.
End Shared.

(** ** The variant of [serve.go]: GET only *)
Module Basic.

(** [listTemplate], cut at its actions. *)
Definition page_1 : string :=
  "<!DOCTYPE html>
<html lang=" ++ dq ++ "en" ++ dq ++ ">
<head>
    <meta charset=" ++ dq ++ "UTF-8" ++ dq ++ ">
    <meta name=" ++ dq ++ "viewport" ++ dq ++ " content=" ++ dq ++ "width=device-width, initial-scale=1.0" ++ dq ++ ">
    <link rel=" ++ dq ++ "icon" ++ dq ++ " href=data:, />
    <title>Index of ".

Definition page_2 : string :=
  "</title>
    <style>
		* { font-family: monospace; }
		body { display: flex; flex-direction: column; align-items: center; }
		th { text-align: left; }
		th:before { content: ''; display: block; min-width: 75px; }
    </style>
</head>
<body>
	<h1>Index of ".

Definition page_3 : string :=
  "</h1>
	<table>
		<tr>
			<th>Name</th>
			<th>Size</th>
			<th>Last modified</th>
		</tr>
	".

Definition row_1 : string :=
  "
		<tr>
			<td><a href=" ++ dq.

Definition row_2 : string :=
  dq ++ ">".

Definition row_3 : string :=
  "</a></td>
			<td>".

Definition row_4 : string :=
  "</td>
			<td>".

Definition row_5 : string :=
  "</td>
		</tr>
	".

Definition page_4 : string :=
  "
	</table>
</body>
</html>".

(** The body of [{{range .Files}}]. *)
Definition row : list rnode :=
  [ RText row_1;
    RPrint FPath;
    RText row_2;
    RPrint FName;
    RText row_3;
    RIfNotIsDir [ IText " "; IPrint FSize; IText " " ];
    RText row_4;
    RIfNotIsDir [ IText " "; IPrint FModTime; IText " " ];
    RText row_5 ].

Definition listTemplate : list pnode :=
  [ PText page_1;
    PPrintPath;
    PText page_2;
    PPrintPath;
    PText page_3;
    PRange row;
    PText page_4 ].

Definition handler (sys : OS) (a : app) (w : ResponseWriter) (r : Request)
  : ResponseWriter :=
  let w := Header_Set "Cache-Control" "no-store" w in
  if String.eqb (Method r) MethodGet then
    match handleGet listTemplate sys a w r with
    | (w, Some err) => http_Error w "File not found" StatusNotFound
    | (w, None) => w
    end
  else http_Error w "Method not allowed" StatusMethodNotAllowed.

End Basic.

(** ** The extended variant: GET, and POST for a zip archive *)
Module Extended.

(** [listTemplate], cut at its actions. *)
Definition page_1 : string :=
  "<!DOCTYPE html>
<html lang=" ++ dq ++ "en" ++ dq ++ ">
<head>
    <meta charset=" ++ dq ++ "UTF-8" ++ dq ++ ">
    <meta name=" ++ dq ++ "viewport" ++ dq ++ " content=" ++ dq ++ "width=device-width, initial-scale=1.0" ++ dq ++ ">
    <link rel=" ++ dq ++ "icon" ++ dq ++ " href=data:, />
    <title>Index of ".

Definition page_2 : string :=
  "</title>
    <style>
		* { font-family: monospace; }
		body { display: flex; flex-direction: column; align-items: center; }
		th { text-align: left; }
		th:not(:first-child):before { content: ''; display: block; min-width: 75px; }
		table { margin-bottom: 16px; }
    </style>
</head>
<body>
	<h1>Index of ".

Definition page_3 : string :=
  "</h1>
	<form method=" ++ dq ++ "POST" ++ dq ++ ">
		<table>
			<tr>
				<th />
				<th>Name</th>
				<th>Size</th>
				<th>Last modified</th>
			</tr>
		".

Definition row_1 : string :=
  "
			<tr>
				<td><input type=" ++ dq ++ "checkbox" ++ dq ++ " name=" ++ dq ++ "files" ++ dq ++ " value=" ++ dq.

Definition row_2 : string :=
  dq ++ " /></td>
				<td><a href=" ++ dq.

Definition row_3 : string :=
  dq ++ ">".

Definition row_4 : string :=
  "</a></td>
				<td>".

Definition row_5 : string :=
  "</td>
				<td>".

Definition row_6 : string :=
  "</td>
			</tr>
		".

Definition page_4 : string :=
  "
		</table>

		<input type=" ++ dq ++ "submit" ++ dq ++ " value=" ++ dq ++ "Download zip" ++ dq ++ " />
	</form>
</body>
</html>".

(** The body of [{{range .Files}}]. *)
Definition row : list rnode :=
  [ RText row_1;
    RPrint FName;
    RText row_2;
    RPrint FPath;
    RText row_3;
    RPrint FName;
    RText row_4;
    RIfNotIsDir [ IText " "; IPrint FSize; IText " " ];
    RText row_5;
    RIfNotIsDir [ IText " "; IPrint FModTime; IText " " ];
    RText row_6 ].

Definition listTemplate : list pnode :=
  [ PText page_1;
    PPrintPath;
    PText page_2;
    PPrintPath;
    PText page_3;
    PRange row;
    PText page_4 ].

Definition dirname (d : string) : string :=
  let base := filepath.Base d in
  if String.eqb base "." || String.eqb base "/" then "root" else base.

Definition ErrRel (basepath targpath : string) : error :=
  "Rel: can't make " ++ targpath ++ " relative to " ++ basepath.

(** A [for] loop over a slice whose body may return an error, which ends
    the loop; [None] when the body did not come back. *)
Fixpoint for_range {A : Type}
    (body : ResponseWriter -> A -> option (ResponseWriter * option error))
    (l : list A) (zw : ResponseWriter)
  : option (ResponseWriter * option error) :=
  match l with
  | [] => Some (zw, None)
  | x :: rest =>
      match body zw x with
      | None => None
      | Some (zw', Some e) => Some (zw', Some e)
      | Some (zw', None) => for_range body rest zw'
      end
  end.

(** [addToArchive] calls itself on the entries of a directory; [fuel]
    bounds the depth of the calls, and [None] says it was used up. *)
Fixpoint addToArchive (fuel : nat) (sys : OS) (zw : ResponseWriter)
    (d path : string) : option (ResponseWriter * option error) :=
  match fuel with
  | O => None
  | S fuel' =>
      match filepath.Rel d path with
      | None => Some (zw, Some (ErrRel d path))
      | Some relPath =>
          match os_Open sys path with
          | Err e => Some (zw, Some e)
          | Ok f =>
              match f_Stat sys f with
              | Err e => Some (zw, Some e)
              | Ok fi =>
                  if fi_IsDir fi then
                    match ReadDir sys path with
                    | Err e => Some (zw, Some e)
                    | Ok fis =>
                        for_range
                          (fun zw fi =>
                             addToArchive fuel' sys zw d
                               (filepath.Join path (fi_Name fi)))
                          fis zw
                    end
                  else
                    match zip_Create zw relPath with
                    | (zw, Some e) => Some (zw, Some e)
                    | (zw, None) =>
                        Some (io_Copy zip_Write (f_ReadAll sys f) zw)
                    end
              end
          end
      end
  end.

(** [archive]; the deferred [zw.Close()] runs on every way out. *)
Definition archive (fuel : nat) (sys : OS) (w : ResponseWriter) (d : string)
    (filenames : list string) : option (ResponseWriter * option error) :=
  let zw := w in
  let fileNames := filenames in
  let first :=
    match fileNames with
    | [] => addToArchive fuel sys zw d d
    | _ => Some (zw, None)
    end in
  match first with
  | None => None
  | Some (zw, Some e) => Some (zip_Close zw, Some e)
  | Some (zw, None) =>
      match for_range
              (fun zw name =>
                 addToArchive fuel sys zw d (filepath.Join d name))
              fileNames zw with
      | None => None
      | Some (zw, e) => Some (zip_Close zw, e)
      end
  end.

Definition content_disposition (d : string) : string :=
  "attachment; filename=" ++ dq ++ dirname d ++ ".zip" ++ dq.

Definition handlePost (fuel : nat) (sys : OS) (a : app) (w : ResponseWriter)
    (r : Request) : option (ResponseWriter * option error) :=
  match Form_files r with
  | Err e => Some (w, Some e)
  | Ok files =>
      let d := filepath.Join (dir a) (filepath.Clean (URL_Path r)) in
      let w := Header_Set "Content-Disposition" (content_disposition d) w in
      archive fuel sys w d files
  end.

Definition handler (fuel : nat) (sys : OS) (a : app) (w : ResponseWriter)
    (r : Request) : option ResponseWriter :=
  let w := Header_Set "Cache-Control" "no-store" w in
  if String.eqb (Method r) MethodGet then
    match handleGet listTemplate sys a w r with
    | (w, Some err) => Some (http_Error w "File not found" StatusNotFound)
    | (w, None) => Some w
    end
  else if String.eqb (Method r) MethodPost then
    match handlePost fuel sys a w r with
    | None => None
    | Some (w, Some err) =>
        Some (http_Error w ("Error: " ++ err) StatusInternalServerError)
    | Some (w, None) => Some w
    end
  else Some (http_Error w "Method not allowed" StatusMethodNotAllowed).

End Extended.

(* ===================================================================== *)
(** * Names, cleaned paths, containment *)
(* ===================================================================== *)

Module PathSpec.
Import filepath.

Fixpoint has_sep (s : string) : bool :=
  match s with
  | EmptyString => false
  | String c r => is_sep c || has_sep r
  end.

(** A name a directory can hold: not empty, no separator in it, and
    neither [.] nor [..]. *)
Definition valid_name (s : string) : bool :=
  negb (String.eqb s EmptyString) && negb (String.eqb s dot)
  && negb (String.eqb s dotdot) && negb (has_sep s).

(** The output stack of [Clean] (last element first) is in normal form:
    its elements are names, except that the stack of a path that is not
    rooted may end, at its bottom, in a run of [..]. *)
Fixpoint norm_stack (r : bool) (st : list string) : bool :=
  match st with
  | [] => true
  | x :: rest =>
      if String.eqb x dotdot
      then negb r && forallb (String.eqb dotdot) rest
      else valid_name x && norm_stack r rest
  end.

(** The first element of a path is [..]. *)
Definition starts_with_dotdot (p : string) : bool :=
  match split p with
  | x :: _ => String.eqb x dotdot
  | [] => false
  end.

(** Some element of a path is [..]. *)
Definition has_dotdot (p : string) : bool :=
  existsb (String.eqb dotdot) (split p).

(** [p] lies within [root], by the names alone: [Rel] finds a way from
    [root] to [p] that does not begin by going up. *)
Definition within (root p : string) : bool :=
  match Rel root p with
  | Some rel => negb (starts_with_dotdot rel)
  | None => false
  end.

End PathSpec.

(* ===================================================================== *)
(** * What a directory tree holds *)
(* ===================================================================== *)

Module TreeSpec.
Import Tree filepath PathSpec.

Fixpoint distinct (l : list string) : bool :=
  match l with
  | [] => true
  | x :: r => negb (existsb (String.eqb x) r) && distinct r
  end.

(** A tree as a file system has it: the names of a directory are valid
    and differ from each other. *)
Fixpoint wf (n : node) : bool :=
  match n with
  | File _ _ => true
  | Dir _ es =>
      distinct (map fst es)
      && forallb (fun e => valid_name (fst e) && wf (snd e)) es
  end.

Fixpoint height (n : node) : nat :=
  match n with
  | File _ _ => 0
  | Dir _ es => S (list_max (map (fun e => height (snd e)) es))
  end.

(** The regular files at or below a node, depth first and in the order
    of the directory entries, each with the path that leads to it from
    [pre] and with its content. *)
Fixpoint files_under (pre : list string) (n : node)
  : list (string * string) :=
  match n with
  | File data _ => [(join pre, data)]
  | Dir _ es =>
      flat_map (fun e => files_under (pre ++ [fst e]) (snd e)) es
  end.

(** The files of the entries of a directory that [names] selects, in the
    order of [names]. *)
Definition selected (es : list (string * node)) (names : list string)
  : list (string * string) :=
  flat_map (fun nm =>
              match lookup_child es nm with
              | Some c => files_under [nm] c
              | None => []
              end) names.

(** The location [loc] is at or below the location [base]. *)
Fixpoint below (base loc : list string) : bool :=
  match base, loc with
  | [], _ => true
  | b :: base', l :: loc' => String.eqb b l && below base' loc'
  | _ :: _, [] => false
  end.

End TreeSpec.

(** The writes of a list of chunks, one after the other. *)
Definition write_chunks (cs : list chunk) (w : ResponseWriter)
  : ResponseWriter :=
  fold_left (fun w c => fst (Write c w)) cs w.

(* ===================================================================== *)
(** * The command line *)
(* ===================================================================== *)

(** Package [flag], for the flag set of [fromArgs]: the string flag [a]
    and the boolean flag [q], with [ContinueOnError]. *)
Module flag.

Inductive kind : Type := StringFlag | BoolFlag.

(** The flags [fromArgs] defines with [StringVar] and [BoolVar]. *)
Definition formal (name : string) : option kind :=
  if String.eqb name "a" then Some StringFlag
  else if String.eqb name "q" then Some BoolFlag
  else None.

(** [strconv.ParseBool]. *)
Definition ParseBool (s : string) : option bool :=
  if existsb (String.eqb s) ["1"; "t"; "T"; "TRUE"; "true"; "True"]
  then Some true
  else if existsb (String.eqb s) ["0"; "f"; "F"; "FALSE"; "false"; "False"]
  then Some false
  else None.

Definition ErrHelp : error := "flag: help requested".

(** The name of a flag cut at its first [=], when there is one. *)
Fixpoint cut_equals (s : string) : string * option string :=
  match s with
  | EmptyString => (EmptyString, None)
  | String c r =>
      if Ascii.eqb c "="%char then (EmptyString, Some r)
      else let (n, v) := cut_equals r in (String c n, v)
  end.

Fixpoint has_equals (s : string) : bool :=
  match s with
  | EmptyString => false
  | String c r => Ascii.eqb c "="%char || has_equals r
  end.

(** The test at the head of [parseOne]: an argument is a flag when it has
    two bytes or more and begins with a minus sign. *)
Definition is_flag (s : string) : bool :=
  match s with
  | String c (String _ _) => Ascii.eqb c "-"%char
  | _ => false
  end.

Definition quoted (s : string) : string := dq ++ s ++ dq.

(** What is left of a flag argument behind its one or two minus signs. *)
Definition flag_name (s : string) : string :=
  match s with
  | String _ (String c r) =>
      if Ascii.eqb c "-"%char then r else String c r
  | _ => EmptyString
  end.

Definition bad_name (name : string) : bool :=
  match name with
  | EmptyString => true
  | String c _ => Ascii.eqb c "-"%char || Ascii.eqb c "="%char
  end.

(** [FlagSet.Parse] on the flag values [addr] and [quiet]: the loop over
    [parseOne].  It gives the values and the arguments that are left, or
    the error of the flag it stopped at. *)
Fixpoint Parse (addr : string) (quiet : bool) (args : list string)
  : result (string * bool * list string) :=
  match args with
  | [] => Ok (addr, quiet, [])
  | s :: rest =>
      if negb (is_flag s) then Ok (addr, quiet, args)
      else if String.eqb s "--" then Ok (addr, quiet, rest)
      else
        let name := flag_name s in
        if bad_name name then Err ("bad flag syntax: " ++ s)
        else
          match name with
          | EmptyString => Err ("bad flag syntax: " ++ s)
          | String c0 tl =>
              (* an equals sign cannot be the first byte of the name *)
              let (n1, value) := cut_equals tl in
              let name := String c0 n1 in
              match formal name with
              | None =>
                  if String.eqb name "help" || String.eqb name "h"
                  then Err ErrHelp
                  else Err ("flag provided but not defined: -" ++ name)
              | Some BoolFlag =>
                  match value with
                  | Some v =>
                      match ParseBool v with
                      | Some b => Parse addr b rest
                      | None =>
                          Err ("invalid boolean value " ++ quoted v
                               ++ " for -" ++ name ++ ": parse error")
                      end
                  | None => Parse addr true rest
                  end
              | Some StringFlag =>
                  match value with
                  | Some v => Parse v quiet rest
                  | None =>
                      match rest with
                      | v :: rest' => Parse v quiet rest'
                      | [] => Err ("flag needs an argument: -" ++ name)
                      end
                  end
              end
          end
  end.

End flag.

(** [app.fromArgs]: the flags, then the first argument that is left as the
    directory. *)
Definition fromArgs (args : list string) : result app :=
  match flag.Parse "localhost:9876" false args with
  | Err e => Err e
  | Ok (addr, quiet, fArgs) =>
      Ok {| dir := match fArgs with
                   | d :: _ => d
                   | [] => "."
                   end;
            quiet := quiet;
            addr := addr |}
  end.

(** [CLI], for a given behaviour [run] of the server ([app.run], that is
    [http.ListenAndServe]): the error it ends with, if it ends. *)
Definition CLI (run : app -> option error) (args : list string) : Z :=
  match fromArgs args with
  | Err _ => 2
  | Ok a =>
      match run a with
      | Some _ => 1
      | None => 0
      end
  end.

(** An argument list that says what an [app] holds. *)
Definition args_of (a : app) : list string :=
  (["-a"; addr a] ++ (if quiet a then ["-q"] else []) ++ [dir a])%list.

(* ===================================================================== *)
(** * Sample worlds, for the examples *)
(* ===================================================================== *)

Module Sample.
Import Tree.

Definition t0 : Fmt.Time := Fmt.mkTime 2020 5 9 7 3 0.

(** The served directory [/srv/www]. *)
Definition www : node :=
  Dir t0 [ ("qwer", File "content-B" t0);
           ("asdf", File "content-A" t0);
           ("sub", Dir t0 [ ("x", File "xx" t0); ("empty", Dir t0 []) ]) ].

Definition root : node :=
  Dir t0 [ ("srv", Dir t0 [ ("www", www) ]);
           ("etc", Dir t0 [ ("passwd", File "root:x" t0) ]) ].

Definition cwd : list string := ["srv"; "www"].

Definition sys : OS := Tree.os root cwd.

(** [serve] started in [/srv/www] with no argument. *)
Definition here : app := mkApp "." false "localhost:9876".

(** [serve /srv/www]. *)
Definition abs : app := mkApp "/srv/www" false "localhost:9876".

Definition EIO : error := "read: input/output error".

(** The same system on a failing disk: a read delivers at most [n] bytes
    of a file and then ends with an error. *)
Definition failing_disk (s : OS) (n : nat) : OS :=
  {| fd := fd s;
     os_Open := os_Open s;
     f_Stat := f_Stat s;
     f_ReadAll := fun f =>
       let d := fst (f_ReadAll s f) in
       if (n <? String.length d)%nat then (substring 0 n d, Some EIO)
       else f_ReadAll s f;
     ReadDir := ReadDir s |}.

Definition GET (path : string) : Request := mkRequest MethodGet path (Ok []).
Definition POST (path : string) (files : list string) : Request :=
  mkRequest MethodPost path (Ok files).

End Sample.

(* ===================================================================== *)
(** * Predicates of the statements *)
(* ===================================================================== *)

(** A GET request fails before any byte of the body is written: the path
    cannot be opened, [Stat] fails, the directory cannot be read, or the
    read of the file fails at its first byte. *)
Definition fails_before_body (sys : OS) (a : app) (r : Request) : Prop :=
  let dirPath := filepath.Join (dir a) (filepath.Clean (URL_Path r)) in
  match os_Open sys dirPath with
  | Err _ => True
  | Ok f =>
      match f_Stat sys f with
      | Err _ => True
      | Ok info =>
          if fi_IsDir info then
            match ReadDir sys dirPath with
            | Err _ => True
            | Ok _ => False
            end
          else exists e, f_ReadAll sys f = (EmptyString, Some e)
      end
  end.

(** A GET request reaches a regular file whose read delivers [data] and
    then fails. *)
Definition read_breaks_off (sys : OS) (a : app) (r : Request)
    (data : string) : Prop :=
  let dirPath := filepath.Join (dir a) (filepath.Clean (URL_Path r)) in
  exists f info e,
    os_Open sys dirPath = Ok f /\ f_Stat sys f = Ok info /\
    fi_IsDir info = false /\ f_ReadAll sys f = (data, Some e).

(** A GET request reaches a directory whose entries are read. *)
Definition lists_directory (sys : OS) (a : app) (r : Request)
    (files : list FileInfo) : Prop :=
  let dirPath := filepath.Join (dir a) (filepath.Clean (URL_Path r)) in
  exists f info,
    os_Open sys dirPath = Ok f /\ f_Stat sys f = Ok info /\
    fi_IsDir info = true /\ ReadDir sys dirPath = Ok files.

Definition not_found_body : list chunk := [Bytes ("File not found" ++ newline)].

(** [needle] occurs in [hay]. *)
Definition contains (needle hay : string) : Prop :=
  exists pre post, hay = pre ++ needle ++ post.

Definition concat_str (l : list string) : string :=
  fold_right String.append EmptyString l.

(** The body of the [range] action of a template. *)
Definition range_body (t : list pnode) : list rnode :=
  flat_map (fun n => match n with PRange b => b | _ => [] end) t.

(** The text a template gives for one entry of the listing. *)
Definition row_text (t : list pnode) (path : string) (f : FileInfo)
  : string :=
  concat_str (exec_row (range_body t) (toFile path f)).

(** The anchor of an entry: it links to the join of the request path and
    the name of the entry, and shows the name. *)
Definition anchor (path : string) (f : FileInfo) : string :=
  "<a href=" ++ dq ++ filepath.Join path (fi_Name f) ++ dq ++ ">"
  ++ fi_Name f ++ "</a>".


(** The whole page a GET of a directory writes on a working connection. *)
Definition listing_text (t : list pnode) (path : string)
    (files : list FileInfo) : string :=
  body_text (w_body (fst (serveDir t (newResponse false) path files))).

(** A cell of the listing that is left empty for a directory. *)
Definition cell (isdir : bool) (s : string) : string :=
  if isdir then EmptyString else " " ++ s ++ " ".


(** The end of a text constant, cut off. *)
Definition cut_end (s x : string) : string :=
  substring 0 (String.length s - String.length x) s.

Definition cut_start (s x : string) : string :=
  substring (String.length x) (String.length s - String.length x) s.

Definition a_open : string := "<a href=" ++ dq.
Definition a_mid : string := dq ++ ">".
Definition a_close : string := "</a>".

(* ===================================================================== *)
(** * Test vectors of the library functions *)
(* ===================================================================== *)

Section PathVectors.
Import filepath.

(** Vectors of Go's own test table for [Clean]. *)
Example Clean_vectors :
  map Clean
    [ "abc"; "abc/def"; "."; ".."; "../.."; "../../abc"; "/abc"; "/"; "";
      "abc/"; "abc/def/"; "./"; "../"; "../../"; "/abc/";
      "abc//def//ghi"; "abc//"; "abc/./def"; "/./abc/def"; "abc/.";
      "abc/def/ghi/../jkl"; "abc/def/../ghi/../jkl"; "abc/def/..";
      "abc/def/../.."; "/abc/def/../.."; "abc/def/../../..";
      "/abc/def/../../.."; "abc/def/../../../ghi/jkl/../../../mno";
      "/../abc"; "abc/./../def"; "abc//./../def"; "abc/../../././../def";
      "//abc"; "///abc"; "//abc//"; "/.."; "/../.." ]
  = [ "abc"; "abc/def"; "."; ".."; "../.."; "../../abc"; "/abc"; "/"; ".";
      "abc"; "abc/def"; "."; ".."; "../.."; "/abc";
      "abc/def/ghi"; "abc"; "abc/def"; "/abc/def"; "abc";
      "abc/def/jkl"; "abc/jkl"; "abc";
      "."; "/"; "..";
      "/"; "../../mno";
      "/abc"; "def"; "def"; "../../def";
      "/abc"; "/abc"; "/abc"; "/"; "/" ].
Proof. vm_compute. reflexivity. Qed.

Example Join_vectors :
  [ Join "a" "b"; Join "a" ""; Join "" "b"; Join "/" "a"; Join "a" "/b";
    Join "a/" "b"; Join "" ""; Join "." "/"; Join "/srv/www" "/x/y";
    Join "/" ""; Join "a" "../b"; Join "." "/mydir" ]
  = [ "a/b"; "a"; "b"; "/a"; "a/b"; "a/b"; ""; "."; "/srv/www/x/y";
      "/"; "b"; "mydir" ].
Proof. vm_compute. reflexivity. Qed.

Example Base_vectors :
  map Base [ ""; "."; "/."; "/"; "////"; "x/"; "abc"; "abc/def"; "a/b/.x";
             "a/b/c."; "a/b/c.x" ]
  = [ "."; "."; "."; "/"; "/"; "x"; "abc"; "def"; ".x"; "c."; "c.x" ].
Proof. vm_compute. reflexivity. Qed.

Example Rel_vectors :
  [ Rel "a/b" "a/b"; Rel "a/b/." "a/b"; Rel "a/b" "a/b/c"; Rel "a/b" "a/c";
    Rel "a/b/c" "a/b"; Rel "a/b" "c/d"; Rel "/a/b" "/a/b/c/d";
    Rel "/a/b" "/"; Rel "/" "/a/b"; Rel "." "a/b"; Rel "." "..";
    Rel ".." "."; Rel ".." "a"; Rel "../../a" "b"; Rel "a" "/a";
    Rel "/a" "a"; Rel "../.." ".."; Rel "a/b/../c" "a/b";
    Rel "/ab/cd" "/ab/c"; Rel "/a/b/c/d" "/a/b"; Rel "a" "a/../b" ]
  = [ Some "."; Some "."; Some "c"; Some "../c";
      Some ".."; Some "../../c/d"; Some "c/d";
      Some "../.."; Some "a/b"; Some "a/b"; Some "..";
      None; None; None; None;
      None; Some ".."; Some "../b";
      Some "../c"; Some "../.."; Some "../b" ].
Proof. vm_compute. reflexivity. Qed.
End PathVectors.

Section FmtVectors.
Import Fmt.
Example itoa_vectors :
  map itoa [0; 7; 10; 42; 1024; 4294967296; -1; -350]%Z
  = ["0"; "7"; "10"; "42"; "1024"; "4294967296"; "-1"; "-350"].
Proof. vm_compute. reflexivity. Qed.

Example Format_vector :
  Format (mkTime 2020 5 9 7 3 0) = "2020-05-09 07:03:00".
Proof. vm_compute. reflexivity. Qed.
End FmtVectors.

(** The cases of [TestFromArgs]. *)
Example fromArgs_vectors :
  map fromArgs
    [ []; ["/home"]; ["-a"; "127.0.0.1:1234"; "-q"];
      ["-a"; "127.0.0.1:1234"; "-q"; "/home"] ]
  = [ Ok (mkApp "." false "localhost:9876");
      Ok (mkApp "/home" false "localhost:9876");
      Ok (mkApp "." true "127.0.0.1:1234");
      Ok (mkApp "/home" true "127.0.0.1:1234") ].
Proof. vm_compute. reflexivity. Qed.

Example fromArgs_more :
  map fromArgs
    [ ["--q=false"; "-a=:80"; "--"; "-x"]; ["-x"]; ["-a"]; ["-h"];
      ["/home"; "-q"]; ["-q=maybe"]; ["---"]; ["-"; "-q"] ]
  = [ Ok (mkApp "-x" false ":80");
      Err "flag provided but not defined: -x";
      Err "flag needs an argument: -a";
      Err flag.ErrHelp;
      Ok (mkApp "/home" false "localhost:9876");
      Err ("invalid boolean value " ++ dq ++ "maybe" ++ dq
           ++ " for -q: parse error");
      Err "bad flag syntax: ---";
      Ok (mkApp "-" false "localhost:9876") ].
Proof. vm_compute. reflexivity. Qed.

(* ===================================================================== *)
(** * Headers and status through the writer operations *)
(* ===================================================================== *)

(** Key [k] holds [v] in the header map, and in the copy that went out
    when one did. *)
Definition carries (k v : string) (w : ResponseWriter) : Prop :=
  w_Header w !! k = Some v /\
  forall c h, w_wrote w = Some (c, h) -> h !! k = Some v.

Lemma carries_sent k v w : carries k v w -> sent_header w !! k = Some v.
Proof.
  intros [Hh Hs]. unfold sent_header.
  destruct (w_wrote w) as [[c h]|] eqn:E; eauto.
Qed.

Lemma carries_Header_Set k v w : carries k v w ->
  forall k' v', k' <> k -> carries k v (Header_Set k' v' w).
Proof.
  intros [Hh Hs] k' v' Hne. split; simpl.
  - rewrite lookup_insert_ne; auto.
  - exact Hs.
Qed.

Lemma carries_Header_Set_same k v w :
  w_wrote w = None -> carries k v (Header_Set k v w).
Proof.
  intros Hw. split; simpl.
  - apply lookup_insert_eq.
  - intros c h E. congruence.
Qed.

Lemma carries_Header_Del k v w : carries k v w ->
  forall k', k' <> k -> carries k v (Header_Del k' w).
Proof.
  intros [Hh Hs] k' Hne. split; simpl.
  - rewrite lookup_delete_ne; auto.
  - exact Hs.
Qed.

Lemma carries_WriteHeader k v w code :
  carries k v w -> carries k v (WriteHeader code w).
Proof.
  intros H. unfold WriteHeader.
  destruct (w_wrote w) as [p|] eqn:E; [exact H|].
  destruct H as [Hh Hs]. split; simpl; auto.
  intros c h [= <- <-]. exact Hh.
Qed.

Lemma carries_Write k v w c :
  carries k v w -> carries k v (fst (Write c w)).
Proof.
  intros H. unfold Write.
  pose proof (carries_WriteHeader k v w StatusOK H) as [Hh Hs].
  destruct (w_broken (WriteHeader StatusOK w)); simpl; split; auto.
Qed.

Lemma carries_write_all k v ps : forall w,
  carries k v w -> carries k v (fst (write_all ps w)).
Proof.
  induction ps as [|p r IH]; intros w H; simpl; auto.
  pose proof (carries_Write k v w (Bytes p) H) as H1.
  destruct (Write (Bytes p) w) as [w' [e|]]; simpl in *; auto.
Qed.

Lemma carries_io_Copy k v write src w :
  (forall d w0, carries k v w0 -> carries k v (fst (write d w0))) ->
  carries k v w -> carries k v (fst (io_Copy write src w)).
Proof.
  intros Hwr H. unfold io_Copy.
  destruct (String.eqb (fst src) EmptyString); simpl; auto.
  specialize (Hwr (fst src) w H).
  destruct (write (fst src) w) as [w' [e|]]; simpl in *; auto.
Qed.

Lemma carries_http_Error k v w msg code :
  k <> "Content-Length" -> k <> "Content-Type" ->
  k <> "X-Content-Type-Options" ->
  carries k v w -> carries k v (http_Error w msg code).
Proof.
  intros H1 H2 H3 H. unfold http_Error.
  apply carries_Write, carries_WriteHeader.
  apply carries_Header_Set; [|congruence].
  apply carries_Header_Set; [|congruence].
  apply carries_Header_Del; [assumption|congruence].
Qed.

Lemma carries_handleGet k v tpl sys a w r :
  carries k v w -> carries k v (fst (handleGet tpl sys a w r)).
Proof.
  intros H. unfold handleGet.
  destruct (os_Open sys _) as [f|e]; simpl; auto.
  destruct (f_Stat sys f) as [info|e]; simpl; auto.
  destruct (fi_IsDir info).
  - destruct (ReadDir sys _) as [files|e]; simpl; auto.
    unfold serveDir, Execute. now apply carries_write_all.
  - apply carries_io_Copy; auto. intros d w0. apply carries_Write.
Qed.

Lemma carries_for_range {A} k v
    (body : ResponseWriter -> A -> option (ResponseWriter * option error)) :
  (forall zw x zw' e, carries k v zw -> body zw x = Some (zw', e) ->
                      carries k v zw') ->
  forall l zw zw' e, carries k v zw ->
    Extended.for_range body l zw = Some (zw', e) -> carries k v zw'.
Proof.
  intros Hb l. induction l as [|x rest IH]; intros zw zw' e H E; simpl in E.
  - now inversion E; subst.
  - destruct (body zw x) as [[zw1 [e1|]]|] eqn:Eb; try discriminate.
    + inversion E; subst. eapply Hb; eauto.
    + eapply IH; [|exact E]. eapply Hb; eauto.
Qed.

Lemma carries_addToArchive k v sys d : forall fuel zw path zw' e,
  carries k v zw ->
  Extended.addToArchive fuel sys zw d path = Some (zw', e) ->
  carries k v zw'.
Proof.
  induction fuel as [|fuel IH]; intros zw path zw' e H E; simpl in E;
    [discriminate|].
  destruct (filepath.Rel d path) as [rel|]; [|now inversion E; subst].
  destruct (os_Open sys path) as [f|e0]; [|now inversion E; subst].
  destruct (f_Stat sys f) as [fi|e0]; [|now inversion E; subst].
  destruct (fi_IsDir fi).
  - destruct (ReadDir sys path) as [fis|e0]; [|now inversion E; subst].
    eapply carries_for_range; [|exact H|exact E].
    intros zw0 x zw1 e1 H0 E0. eapply IH; [exact H0|exact E0].
  - unfold zip_Create in E.
    pose proof (carries_Write k v zw (ZipHeader rel) H) as H1.
    destruct (Write (ZipHeader rel) zw) as [zw1 [e1|]]; simpl in H1.
    + now inversion E; subst.
    + inversion E as [E']. 
      pose proof (carries_io_Copy k v zip_Write (f_ReadAll sys f) zw1) as H2.
      rewrite E' in H2. apply H2; auto.
      intros d0 w0. apply carries_Write.
Qed.

Lemma carries_archive k v fuel sys w d names zw' e :
  carries k v w ->
  Extended.archive fuel sys w d names = Some (zw', e) ->
  carries k v zw'.
Proof.
  intros H E. unfold Extended.archive in E.
  set (first := match names with
                | [] => Extended.addToArchive fuel sys w d d
                | _ => Some (w, None)
                end) in E.
  assert (Hfirst : forall zw1 e1, first = Some (zw1, e1) -> carries k v zw1).
  { intros zw1 e1 E1. subst first. destruct names.
    - eapply carries_addToArchive; [exact H|exact E1].
    - now inversion E1; subst. }
  destruct first as [[zw1 [e1|]]|]; try discriminate.
  - inversion E; subst. apply carries_Write. eapply Hfirst; reflexivity.
  - destruct (Extended.for_range _ names zw1) as [[zw2 e2]|] eqn:E2;
      try discriminate.
    inversion E; subst. apply carries_Write.
    eapply carries_for_range; [|eapply Hfirst; reflexivity|exact E2].
    intros zw0 x zw3 e3 H0 E0.
    eapply carries_addToArchive; [exact H0|exact E0].
Qed.

(* ===================================================================== *)
(** * The request handler: headers, status codes, errors *)
(* ===================================================================== *)

Lemma status_WriteHeader_wrote w code c h :
  w_wrote w = Some (c, h) -> WriteHeader code w = w.
Proof. intros E. unfold WriteHeader. now rewrite E. Qed.

Lemma status_WriteHeader_fresh w code :
  w_wrote w = None -> status (WriteHeader code w) = code.
Proof. intros E. unfold WriteHeader, status. rewrite E. reflexivity. Qed.

Lemma wrote_WriteHeader w code : w_wrote (WriteHeader code w) <> None.
Proof.
  unfold WriteHeader. destruct (w_wrote w) eqn:E; simpl; congruence.
Qed.

Lemma status_Write c w : status (fst (Write c w)) = status w.
Proof.
  unfold Write, WriteHeader, status.
  destruct (w_wrote w) as [[code h]|] eqn:E; simpl.
  - destruct (w_broken w); simpl; rewrite E; reflexivity.
  - destruct (w_broken w); reflexivity.
Qed.

Lemma status_write_all ps : forall w, status (fst (write_all ps w)) = status w.
Proof.
  induction ps as [|p r IH]; intros w; simpl; auto.
  pose proof (status_Write (Bytes p) w) as H.
  destruct (Write (Bytes p) w) as [w' [e|]]; simpl in *; auto.
  rewrite IH. exact H.
Qed.

Lemma status_Header_Set k v w : status (Header_Set k v w) = status w.
Proof. reflexivity. Qed.

Lemma status_http_Error_fresh w msg code :
  w_wrote w = None -> status (http_Error w msg code) = code.
Proof.
  intros E. unfold http_Error. rewrite status_Write.
  apply status_WriteHeader_fresh. exact E.
Qed.

Lemma http_Error_fresh_healthy h msg code :
  w_body (http_Error (mkRW h None [] false) msg code)
  = [Bytes (msg ++ newline)].
Proof. reflexivity. Qed.

Lemma Write_broken c w :
  w_broken w = true -> snd (Write c w) = Some EPIPE.
Proof.
  intros E. unfold Write, WriteHeader.
  destruct (w_wrote w); simpl; rewrite E; reflexivity.
Qed.

Lemma write_all_broken p ps w :
  w_broken w = true -> snd (write_all (p :: ps) w) = Some EPIPE.
Proof.
  intros E. simpl. pose proof (Write_broken (Bytes p) w E) as H.
  destruct (Write (Bytes p) w) as [w' [e|]]; simpl in *; congruence.
Qed.

(** What [handleGet] does on a directory that is read: the result of the
    renderer is dropped. *)
Lemma handleGet_directory tpl sys a w r files :
  lists_directory sys a r files ->
  handleGet tpl sys a w r
  = (fst (serveDir tpl w (filepath.Clean (URL_Path r)) files), None).
Proof.
  intros (f & info & Ho & Hs & Hd & Hr). unfold handleGet.
  rewrite Ho, Hs, Hd, Hr. reflexivity.
Qed.

Lemma handleGet_fails_before_body tpl sys a w r :
  fails_before_body sys a r ->
  exists e, handleGet tpl sys a w r = (w, Some e).
Proof.
  unfold fails_before_body, handleGet.
  destruct (os_Open sys _) as [f|e]; [|eauto].
  destruct (f_Stat sys f) as [info|e]; [|eauto].
  destruct (fi_IsDir info).
  - destruct (ReadDir sys _) as [files|e]; [tauto|eauto].
  - intros [e He]. rewrite He. unfold io_Copy. simpl. eauto.
Qed.

Lemma handleGet_read_breaks_off tpl sys a w r data :
  read_breaks_off sys a r data -> data <> EmptyString ->
  w_broken w = false ->
  exists e, handleGet tpl sys a w r = (fst (Write (Bytes data) w), Some e).
Proof.
  intros (f & info & e & Ho & Hs & Hd & Hr) Hne Hw. unfold handleGet.
  rewrite Ho, Hs, Hd, Hr. unfold io_Copy. simpl.
  destruct (String.eqb data EmptyString) eqn:E.
  - apply String.eqb_eq in E. contradiction.
  - unfold Write, WriteHeader.
    destruct (w_wrote w); simpl; rewrite Hw; simpl; eauto.
Qed.

(** C6.  Every response of the handler, in both variants, for every
    method and path, on success and on failure, carries the header
    [Cache-Control: no-store].  The variant with POST gives a response for
    every request that is no POST whatever the fuel. *)
Theorem cache_control_no_store :
  forall (sys : OS) (a : app) (r : Request) (broken : bool),
    sent_header (Basic.handler sys a (newResponse broken) r)
      !! "Cache-Control" = Some "no-store"
    /\ (forall fuel w',
          Extended.handler fuel sys a (newResponse broken) r = Some w' ->
          sent_header w' !! "Cache-Control" = Some "no-store")
    /\ (Method r <> MethodPost ->
        forall fuel, exists w',
          Extended.handler fuel sys a (newResponse broken) r = Some w').
Proof.
  intros sys a r broken.
  set (k := "Cache-Control"). set (v := "no-store").
  assert (H0 : carries k v (Header_Set k v (newResponse broken)))
    by (apply carries_Header_Set_same; reflexivity).
  assert (Hget : forall tpl,
    carries k v (fst (handleGet tpl sys a (Header_Set k v (newResponse broken)) r)))
    by (intros tpl; apply carries_handleGet; exact H0).
  assert (Herr : forall w msg code, carries k v w ->
                   carries k v (http_Error w msg code))
    by (intros; apply carries_http_Error; auto; discriminate).
  split; [|split].
  - apply carries_sent. unfold Basic.handler. fold k v.
    destruct (String.eqb (Method r) MethodGet); [|now apply Herr].
    specialize (Hget Basic.listTemplate).
    destruct (handleGet _ _ _ _ _) as [w1 [e|]]; simpl in Hget; auto.
  - intros fuel w' E. apply carries_sent. unfold Extended.handler in E.
    fold k v in E.
    destruct (String.eqb (Method r) MethodGet).
    { specialize (Hget Extended.listTemplate).
      destruct (handleGet _ _ _ _ _) as [w1 [e|]]; simpl in Hget;
        inversion E; subst; auto. }
    destruct (String.eqb (Method r) MethodPost);
      [|inversion E; subst; now apply Herr].
    assert (Hpost : forall w1 e1,
      Extended.handlePost fuel sys a (Header_Set k v (newResponse broken)) r
      = Some (w1, e1) -> carries k v w1).
    { intros w1 e1 E1. unfold Extended.handlePost in E1.
      destruct (Form_files r) as [files|e0]; [|now inversion E1; subst].
      eapply carries_archive; [|exact E1].
      apply carries_Header_Set; [exact H0|discriminate]. }
    destruct (Extended.handlePost _ _ _ _ _) as [[w1 [e1|]]|];
      try discriminate; inversion E; subst.
    + apply Herr. eapply Hpost; reflexivity.
    + eapply Hpost; reflexivity.
  - intros Hm fuel. unfold Extended.handler.
    destruct (String.eqb (Method r) MethodGet).
    { destruct (handleGet _ _ _ _ _) as [w1 [e|]]; eauto. }
    destruct (String.eqb (Method r) MethodPost) eqn:E; [|eauto].
    apply String.eqb_eq in E. contradiction.
Qed.

Lemma cache_control_no_store_witness :
  exists w',
    Extended.handler 5 Sample.sys Sample.here (newResponse false)
      (Sample.POST "/" ["sub"]) = Some w'
    /\ sent_header w' !! "Cache-Control" = Some "no-store".
Proof.
  eexists. split; [vm_compute; reflexivity|].
  apply (proj1 (proj2 (cache_control_no_store Sample.sys Sample.here
                         (Sample.POST "/" ["sub"]) false)) 5).
  vm_compute. reflexivity.
Defined.

(** C7.  A request whose method is not GET (and, where POST is served, not
    POST) gets status 405 Method Not Allowed, whatever its path. *)
Theorem method_not_allowed :
  forall (sys : OS) (a : app) (r : Request) (broken : bool),
    Method r <> MethodGet ->
    status (Basic.handler sys a (newResponse broken) r)
      = StatusMethodNotAllowed
    /\ (Method r <> MethodPost ->
        forall fuel,
          option_map status
            (Extended.handler fuel sys a (newResponse broken) r)
          = Some StatusMethodNotAllowed).
Proof.
  intros sys a r broken Hg.
  apply String.eqb_neq in Hg. split.
  - unfold Basic.handler. rewrite Hg.
    apply status_http_Error_fresh. reflexivity.
  - intros Hp fuel. apply String.eqb_neq in Hp.
    unfold Extended.handler. rewrite Hg, Hp. simpl.
    f_equal. apply status_http_Error_fresh. reflexivity.
Qed.

Lemma method_not_allowed_witness :
  status (Basic.handler Sample.sys Sample.here (newResponse false)
            (mkRequest "DELETE" "/asdf" (Ok [])))
    = StatusMethodNotAllowed
  /\ option_map status
       (Extended.handler 0 Sample.sys Sample.here (newResponse false)
          (mkRequest "DELETE" "/asdf" (Ok [])))
     = Some StatusMethodNotAllowed.
Proof.
  pose proof (method_not_allowed Sample.sys Sample.here
                (mkRequest "DELETE" "/asdf" (Ok [])) false) as H.
  destruct H as [H1 H2]; [discriminate|].
  split; [exact H1|]. apply H2. discriminate.
Defined.

Lemma exec_Basic_starts path files :
  exists p ps, exec Basic.listTemplate path files = p :: ps.
Proof. unfold exec, Basic.listTemplate. simpl. eauto. Qed.

Lemma exec_Extended_starts path files :
  exists p ps, exec Extended.listTemplate path files = p :: ps.
Proof. unfold exec, Extended.listTemplate. simpl. eauto. Qed.

Lemma serveDir_status tpl w path files :
  status (fst (serveDir tpl w path files)) = status w.
Proof. unfold serveDir, Execute. apply status_write_all. Qed.

(** C9.  On a directory whose entries are read, [handleGet] drops the
    error of the listing renderer and returns nil: the handler answers with
    what the renderer left in the response and status 200, never with the
    404 page.  On a broken connection the renderer does fail, and the
    answer is the same. *)
Theorem listing_error_discarded :
  forall (sys : OS) (a : app) (r : Request) (broken : bool)
         (files : list FileInfo),
    Method r = MethodGet ->
    lists_directory sys a r files ->
    let urlPath := filepath.Clean (URL_Path r) in
    let w0 := Header_Set "Cache-Control" "no-store" (newResponse broken) in
    (forall tpl w, snd (handleGet tpl sys a w r) = None)
    /\ Basic.handler sys a (newResponse broken) r
       = fst (serveDir Basic.listTemplate w0 urlPath files)
    /\ (forall fuel,
          Extended.handler fuel sys a (newResponse broken) r
          = Some (fst (serveDir Extended.listTemplate w0 urlPath files)))
    /\ status (Basic.handler sys a (newResponse broken) r) = StatusOK
    /\ (broken = true ->
        snd (serveDir Basic.listTemplate w0 urlPath files) = Some EPIPE /\
        snd (serveDir Extended.listTemplate w0 urlPath files) = Some EPIPE).
Proof.
  intros sys a r broken files Hm Hl urlPath w0.
  assert (Hg : forall tpl w, handleGet tpl sys a w r
                 = (fst (serveDir tpl w urlPath files), None))
    by (intros; now apply handleGet_directory).
  assert (Hb : Basic.handler sys a (newResponse broken) r
               = fst (serveDir Basic.listTemplate w0 urlPath files)).
  { unfold Basic.handler. rewrite Hm. simpl String.eqb. cbv iota.
    fold w0. rewrite Hg. reflexivity. }
  repeat split.
  - intros tpl w. rewrite Hg. reflexivity.
  - exact Hb.
  - intros fuel. unfold Extended.handler. rewrite Hm. simpl String.eqb.
    cbv iota. fold w0. rewrite Hg. reflexivity.
  - rewrite Hb, serveDir_status. reflexivity.
  - unfold serveDir, Execute.
    destruct (exec_Basic_starts urlPath (map (toFile urlPath) files))
      as (p & ps & E).
    rewrite E. apply write_all_broken. subst broken. reflexivity.
  - unfold serveDir, Execute.
    destruct (exec_Extended_starts urlPath (map (toFile urlPath) files))
      as (p & ps & E).
    rewrite E. apply write_all_broken. subst broken. reflexivity.
Qed.

Lemma listing_error_discarded_witness :
  snd (handleGet Basic.listTemplate Sample.sys Sample.here
         (newResponse true) (Sample.GET "/sub")) = None
  /\ status (Basic.handler Sample.sys Sample.here (newResponse true)
               (Sample.GET "/sub")) = StatusOK
  /\ snd (serveDir Basic.listTemplate
            (Header_Set "Cache-Control" "no-store" (newResponse true))
            (filepath.Clean "/sub")
            (map (fun e => Tree.info (fst e) (snd e))
               [ ("x", Tree.File "xx" Sample.t0);
                 ("empty", Tree.Dir Sample.t0 []) ]))
     = Some EPIPE.
Proof.
  assert (Hl : lists_directory Sample.sys Sample.here (Sample.GET "/sub")
                 (map (fun e => Tree.info (fst e) (snd e))
                    [ ("x", Tree.File "xx" Sample.t0);
                      ("empty", Tree.Dir Sample.t0 []) ])).
  { eexists. eexists. repeat split; vm_compute; reflexivity. }
  pose proof (listing_error_discarded Sample.sys Sample.here
                (Sample.GET "/sub") true _ eq_refl Hl) as H.
  cbv zeta in H.
  destruct H as (H1 & _ & _ & H4 & H5).
  split; [apply H1|]. split; [exact H4|].
  exact (proj1 (H5 eq_refl)).
Defined.

(** C5, as the code has it.  A GET request that fails before any byte of
    the body is written (the path does not exist or cannot be opened, Stat
    fails, the directory cannot be read, the read of the file fails at its
    first byte) is answered, on a working connection, with status 404 and
    the body [File not found] and a newline.  When the read of a file
    breaks off after some bytes, these have gone out with status 200, and
    the line [File not found] follows them in the body. *)
Theorem get_error_not_found :
  forall (sys : OS) (a : app) (r : Request),
    Method r = MethodGet ->
    (fails_before_body sys a r ->
       let w := Basic.handler sys a (newResponse false) r in
       status w = StatusNotFound /\ w_body w = not_found_body /\
       forall fuel,
         option_map (fun w => (status w, w_body w))
           (Extended.handler fuel sys a (newResponse false) r)
         = Some (StatusNotFound, not_found_body))
    /\ (forall data,
          read_breaks_off sys a r data -> data <> EmptyString ->
          let w := Basic.handler sys a (newResponse false) r in
          status w = StatusOK /\ w_body w = Bytes data :: not_found_body /\
          forall fuel,
            option_map (fun w => (status w, w_body w))
              (Extended.handler fuel sys a (newResponse false) r)
            = Some (StatusOK, Bytes data :: not_found_body)).
Proof.
  intros sys a r Hm. split.
  - intros Hf.
    assert (Hg : forall tpl w, exists e, handleGet tpl sys a w r = (w, Some e))
      by (intros; now apply handleGet_fails_before_body).
    cbv zeta. unfold Basic.handler, Extended.handler.
    rewrite Hm. simpl String.eqb. cbv iota.
    destruct (Hg Basic.listTemplate
                (Header_Set "Cache-Control" "no-store" (newResponse false)))
      as [e1 E1].
    destruct (Hg Extended.listTemplate
                (Header_Set "Cache-Control" "no-store" (newResponse false)))
      as [e2 E2].
    rewrite E1. repeat split. intros fuel. rewrite E2. reflexivity.
  - intros data Hr Hne.
    assert (Hg : forall tpl w, w_broken w = false -> exists e,
               handleGet tpl sys a w r = (fst (Write (Bytes data) w), Some e))
      by (intros; now apply handleGet_read_breaks_off).
    cbv zeta. unfold Basic.handler, Extended.handler.
    rewrite Hm. simpl String.eqb. cbv iota.
    destruct (Hg Basic.listTemplate
                (Header_Set "Cache-Control" "no-store" (newResponse false))
                eq_refl) as [e1 E1].
    destruct (Hg Extended.listTemplate
                (Header_Set "Cache-Control" "no-store" (newResponse false))
                eq_refl) as [e2 E2].
    rewrite E1. repeat split. intros fuel. rewrite E2. reflexivity.
Qed.

Lemma get_error_not_found_witness :
  status (Basic.handler Sample.sys Sample.here (newResponse false)
            (Sample.GET "/nothere")) = StatusNotFound
  /\ w_body (Basic.handler Sample.sys Sample.here (newResponse false)
               (Sample.GET "/nothere")) = not_found_body.
Proof.
  pose proof (proj1 (get_error_not_found Sample.sys Sample.here
                       (Sample.GET "/nothere") eq_refl)) as H.
  cbv zeta in H.
  assert (Hf : fails_before_body Sample.sys Sample.here
                 (Sample.GET "/nothere")) by (vm_compute; exact I).
  destruct (H Hf) as (H1 & H2 & _). split; assumption.
Defined.

(** C5, the claim as it stands fails: on a disk whose reads break off
    after three bytes, the GET of an existing file meets an I/O error and is
    answered with status 200, not 404; the body is the three bytes and then
    the line [File not found]. *)
Lemma get_error_not_found_counterexample :
  let sys := Sample.failing_disk Sample.sys 3 in
  let r := Sample.GET "/asdf" in
  snd (handleGet Basic.listTemplate sys Sample.here
         (Header_Set "Cache-Control" "no-store" (newResponse false)) r)
    = Some Sample.EIO
  /\ status (Basic.handler sys Sample.here (newResponse false) r)
     <> StatusNotFound
  /\ status (Basic.handler sys Sample.here (newResponse false) r) = StatusOK
  /\ w_body (Basic.handler sys Sample.here (newResponse false) r)
     = [Bytes "con"; Bytes ("File not found" ++ newline)]
  /\ option_map status
       (Extended.handler 0 sys Sample.here (newResponse false) r)
     = Some StatusOK.
Proof. vm_compute. repeat split; try reflexivity. discriminate. Qed.

(* ===================================================================== *)
(** * Facts about [filepath] *)
(* ===================================================================== *)

Module PathFacts.
Import filepath PathSpec.

#[local] Arguments String.append !s1 s2 : simpl nomatch.

Lemma append_nil_r (s : string) : s ++ EmptyString = s.
Proof. induction s; simpl; congruence. Qed.

Lemma append_assoc (a b c : string) : (a ++ b) ++ c = a ++ b ++ c.
Proof. induction a; simpl; congruence. Qed.

Lemma split_nonempty s : split s <> [].
Proof.
  destruct s as [|c r]; simpl; [discriminate|].
  destruct (is_sep c); [discriminate|].
  destruct (split r); discriminate.
Qed.

Lemma split_no_sep s : has_sep s = false -> split s = [s].
Proof.
  induction s as [|c r IH]; simpl; intros H; [reflexivity|].
  apply orb_false_iff in H. destruct H as [Hc Hr].
  rewrite Hc, (IH Hr). reflexivity.
Qed.

Lemma split_app_sep a b :
  split (a ++ slash ++ b) = (split a ++ split b)%list.
Proof.
  induction a as [|c r IH]; simpl; [reflexivity|].
  destruct (is_sep c); simpl.
  - now rewrite <- IH.
  - change (r ++ String "/" b) with (r ++ slash ++ b). rewrite IH.
    pose proof (split_nonempty r) as Hne.
    destruct (split r) as [|h t]; [contradiction|reflexivity].
Qed.

Lemma split_elems_no_sep s : Forall (fun x => has_sep x = false) (split s).
Proof.
  induction s as [|c r IH]; simpl; [repeat constructor|].
  destruct (is_sep c) eqn:Hc.
  - constructor; auto.
  - pose proof (split_nonempty r) as Hne.
    destruct (split r) as [|h t]; [contradiction|].
    inversion IH; subst. constructor; auto. simpl. now rewrite Hc.
Qed.

Lemma valid_name_spec n :
  valid_name n = true <->
  n <> EmptyString /\ n <> dot /\ n <> dotdot /\ has_sep n = false.
Proof.
  unfold valid_name. rewrite !andb_true_iff, !negb_true_iff.
  rewrite !String.eqb_neq. tauto.
Qed.

Lemma valid_name_no_sep n : valid_name n = true -> has_sep n = false.
Proof. intros H. now apply valid_name_spec in H. Qed.

Lemma valid_name_rooted n : valid_name n = true -> rooted n = false.
Proof.
  intros H. apply valid_name_spec in H. destruct H as (H1 & _ & _ & H4).
  destruct n as [|c r]; [reflexivity|]. simpl in *.
  now apply orb_false_iff in H4.
Qed.

Lemma split_join l :
  l <> [] -> Forall (fun x => has_sep x = false) l -> split (join l) = l.
Proof.
  induction l as [|x r IH]; intros Hne Hall; [contradiction|].
  inversion Hall as [|? ? Hx Hr]; subst.
  destruct r as [|y r'].
  - simpl. now apply split_no_sep.
  - change (join (x :: y :: r')) with (x ++ slash ++ join (y :: r')).
    rewrite split_app_sep, (split_no_sep x Hx), IH;
      [reflexivity|discriminate|assumption].
Qed.

Lemma rooted_append a b : a <> EmptyString -> rooted (a ++ b) = rooted a.
Proof. destruct a; [contradiction|reflexivity]. Qed.

Lemma rooted_join x l :
  x <> EmptyString -> rooted (join (x :: l)) = rooted x.
Proof.
  intros H. destruct l; [reflexivity|].
  change (join (x :: s :: l)) with (x ++ slash ++ join (s :: l)).
  now apply rooted_append.
Qed.

Lemma join_nonempty x l : x <> EmptyString -> join (x :: l) <> EmptyString.
Proof.
  intros H. destruct l; [exact H|].
  change (join (x :: s :: l)) with (x ++ slash ++ join (s :: l)).
  destruct x; [contradiction|discriminate].
Qed.

Lemma join_snoc l x :
  l <> [] -> join (l ++ [x]) = join l ++ slash ++ x.
Proof.
  induction l as [|y r IH]; intros Hne; [contradiction|].
  destruct r as [|z r'].
  - reflexivity.
  - change (join ((y :: z :: r') ++ [x]))
      with (y ++ slash ++ join ((z :: r') ++ [x])).
    rewrite IH by discriminate.
    change (join (y :: z :: r')) with (y ++ slash ++ join (z :: r')).
    now rewrite !append_assoc.
Qed.

(** ** The loop of [Clean] *)

Lemma clean_step_name r out n :
  valid_name n = true -> clean_step r out n = n :: out.
Proof.
  intros H. apply valid_name_spec in H. destruct H as (H1 & H2 & H3 & _).
  unfold clean_step.
  apply String.eqb_neq in H1, H2, H3. now rewrite H1, H2, H3.
Qed.

Lemma clean_step_empty r out : clean_step r out EmptyString = out.
Proof. reflexivity. Qed.

Lemma clean_step_dot r out : clean_step r out dot = out.
Proof. reflexivity. Qed.

Lemma fold_clean_names r ns : forall out,
  Forall (fun n => valid_name n = true) ns ->
  fold_left (clean_step r) ns out = (rev ns ++ out)%list.
Proof.
  induction ns as [|n ns IH]; intros out H; [reflexivity|].
  inversion H; subst. simpl.
  rewrite clean_step_name by assumption. rewrite IH by assumption.
  now rewrite <- app_assoc.
Qed.

Lemma norm_stack_all_dotdot r st :
  r = false -> forallb (String.eqb dotdot) st = true -> norm_stack r st = true.
Proof.
  intros -> . induction st as [|x rest IH]; [reflexivity|].
  cbn [forallb norm_stack]. intros H.
  apply andb_true_iff in H. destruct H as [Hx Hr].
  rewrite String.eqb_sym, Hx. exact Hr.
Qed.

Lemma norm_stack_tail r x st :
  norm_stack r (x :: st) = true -> norm_stack r st = true.
Proof.
  cbn [norm_stack]. destruct (String.eqb x dotdot).
  - intros H. apply andb_true_iff in H. destruct H as [Hr H].
    apply norm_stack_all_dotdot; [now destruct r|exact H].
  - intros H. now apply andb_true_iff in H.
Qed.

Lemma clean_step_norm r out seg :
  has_sep seg = false -> norm_stack r out = true ->
  norm_stack r (clean_step r out seg) = true.
Proof.
  intros Hs Hn. unfold clean_step.
  destruct (String.eqb seg EmptyString) eqn:E1; [exact Hn|].
  destruct (String.eqb seg dot) eqn:E2; [exact Hn|].
  destruct (String.eqb seg dotdot) eqn:E3.
  - apply String.eqb_eq in E3. subst seg.
    destruct out as [|top rest].
    + destruct r; reflexivity.
    + destruct (String.eqb top dotdot) eqn:Et.
      * destruct r; [exact Hn|].
        cbn [norm_stack] in Hn. rewrite Et in Hn.
        cbn [norm_stack forallb]. rewrite String.eqb_refl.
        rewrite (String.eqb_sym dotdot top), Et. exact Hn.
      * eapply norm_stack_tail; eauto.
  - cbn [norm_stack]. rewrite E3. unfold valid_name.
    now rewrite E1, E2, E3, Hs, Hn.
Qed.

Lemma fold_clean_norm r segs : forall out,
  Forall (fun x => has_sep x = false) segs -> norm_stack r out = true ->
  norm_stack r (fold_left (clean_step r) segs out) = true.
Proof.
  induction segs as [|s segs IH]; intros out Hs Hn; [exact Hn|].
  inversion Hs; subst. simpl. apply IH; auto. now apply clean_step_norm.
Qed.

(** Replaying a stack in normal form through the loop gives it back. *)
Lemma fold_clean_replay r st : forall acc,
  norm_stack r (st ++ acc) = true ->
  fold_left (clean_step r) (rev st) acc = (st ++ acc)%list.
Proof.
  induction st as [|x rest IH]; intros acc Hn; [reflexivity|].
  cbn [rev]. rewrite fold_left_app. cbn [fold_left].
  rewrite <- app_comm_cons in Hn. rewrite <- app_comm_cons.
  rewrite IH by (eapply norm_stack_tail; exact Hn).
  cbn [norm_stack] in Hn. destruct (String.eqb x dotdot) eqn:Ex.
  - apply String.eqb_eq in Ex. subst x.
    apply andb_true_iff in Hn. destruct Hn as [Hr Hall].
    destruct r; [discriminate|]. unfold clean_step.
    change (String.eqb dotdot EmptyString) with false.
    change (String.eqb dotdot dot) with false.
    rewrite String.eqb_refl. cbv iota.
    destruct (rest ++ acc)%list as [|top l] eqn:E; [reflexivity|].
    cbn [forallb] in Hall. apply andb_true_iff in Hall.
    destruct Hall as [Ht _].
    rewrite String.eqb_sym in Ht. now rewrite Ht.
  - apply andb_true_iff in Hn. destruct Hn as [Hv _].
    rewrite clean_step_name by assumption. reflexivity.
Qed.

Lemma norm_stack_no_sep r st :
  norm_stack r st = true -> Forall (fun x => has_sep x = false) st.
Proof.
  induction st as [|x rest IH]; intros H; [constructor|].
  pose proof (norm_stack_tail _ _ _ H) as Ht. constructor; auto.
  cbn [norm_stack] in H. destruct (String.eqb x dotdot) eqn:Ex.
  - apply String.eqb_eq in Ex. now subst x.
  - apply andb_true_iff in H. destruct H as [Hv _].
    now apply valid_name_no_sep.
Qed.

Lemma norm_stack_nonempty_elems r st :
  norm_stack r st = true -> Forall (fun x => x <> EmptyString) st.
Proof.
  induction st as [|x rest IH]; intros H; [constructor|].
  pose proof (norm_stack_tail _ _ _ H) as Ht. constructor; auto.
  cbn [norm_stack] in H. destruct (String.eqb x dotdot) eqn:Ex.
  - apply String.eqb_eq in Ex. now subst x.
  - apply andb_true_iff in H. destruct H as [Hv _].
    apply valid_name_spec in Hv. tauto.
Qed.

Lemma norm_stack_names r ns st :
  Forall (fun n => valid_name n = true) ns -> norm_stack r st = true ->
  norm_stack r (ns ++ st) = true.
Proof.
  induction 1 as [|n ns Hn Hns IH]; intros Hst; [exact Hst|].
  rewrite <- app_comm_cons. cbn [norm_stack].
  pose proof Hn as Hv. apply valid_name_spec in Hv.
  destruct Hv as (_ & _ & Hdd & _). apply String.eqb_neq in Hdd.
  rewrite Hdd, Hn. now apply IH.
Qed.

Lemma last_Forall {A} (P : A -> Prop) l d :
  l <> [] -> Forall P l -> P (List.last l d).
Proof.
  induction l as [|x r IH]; intros Hne H; [contradiction|].
  inversion H; subst. destruct r as [|y r']; [assumption|].
  change (List.last (x :: y :: r') d) with (List.last (y :: r') d).
  apply IH; [discriminate|assumption].
Qed.

Lemma rev_nonempty {A} (l : list A) : l <> [] -> rev l <> [].
Proof.
  intros H E. apply H. rewrite <- (rev_involutive l), E. reflexivity.
Qed.

(** ** The string of a cleaned path *)

Definition lead (r : bool) : list string :=
  if r then [EmptyString] else [].

Lemma split_render r st :
  norm_stack r st = true ->
  split (render r st)
  = match st with
    | [] => if r then [EmptyString; EmptyString] else [dot]
    | _ => (lead r ++ rev st)%list
    end.
Proof.
  intros Hn. pose proof (norm_stack_no_sep _ _ Hn) as Hs.
  assert (Hj : st <> [] -> split (join (rev st)) = rev st).
  { intros Hne. apply split_join; [now apply rev_nonempty|].
    now apply Forall_rev. }
  unfold render, lead. destruct r.
  - change (slash ++ join (rev st))
      with (EmptyString ++ slash ++ join (rev st)).
    rewrite split_app_sep. destruct st as [|x rest]; [reflexivity|].
    rewrite Hj by discriminate. reflexivity.
  - destruct st as [|x rest]; [reflexivity|].
    rewrite Hj by discriminate. reflexivity.
Qed.

Lemma clean_elems_render r st :
  norm_stack r st = true -> clean_elems r (split (render r st)) = st.
Proof.
  intros Hn. rewrite split_render by assumption. unfold clean_elems.
  assert (Hrep : fold_left (clean_step r) (rev st) [] = st).
  { rewrite fold_clean_replay; rewrite app_nil_r; [reflexivity|exact Hn]. }
  destruct st as [|x rest]; [now destruct r|].
  unfold lead. destruct r; [|exact Hrep].
  rewrite fold_left_app. exact Hrep.
Qed.

Lemma rev_head_props (P : string -> Prop) (st : list string) :
  st <> [] -> Forall P st ->
  exists y l, rev st = y :: l /\ P y.
Proof.
  intros Hne H. apply rev_nonempty in Hne. apply Forall_rev in H.
  destruct (rev st) as [|y l]; [contradiction|].
  inversion H; subst. eauto.
Qed.

Lemma render_nonempty r st :
  norm_stack r st = true -> render r st <> EmptyString.
Proof.
  intros Hn. unfold render. destruct r; [discriminate|].
  destruct st as [|x rest]; [discriminate|].
  destruct (rev_head_props (fun x => x <> EmptyString) (x :: rest))
    as (y & l & E & Hy);
    [discriminate|now apply norm_stack_nonempty_elems with (r := false)|].
  rewrite E. now apply join_nonempty.
Qed.

Lemma rooted_render r st : norm_stack r st = true -> rooted (render r st) = r.
Proof.
  intros Hn. unfold render. destruct r; [reflexivity|].
  destruct st as [|x rest]; [reflexivity|].
  destruct (rev_head_props
              (fun x => x <> EmptyString /\ has_sep x = false) (x :: rest))
    as (y & l & E & Hy1 & Hy2); [discriminate| |].
  { pose proof (norm_stack_nonempty_elems _ _ Hn) as H1.
    pose proof (norm_stack_no_sep _ _ Hn) as H2.
    rewrite Forall_forall in *. intros z Hz. split; auto. }
  rewrite E, rooted_join by assumption.
  destruct y as [|c y']; [contradiction|].
  simpl in *. now apply orb_false_iff in Hy2.
Qed.

(** [Clean] leaves a cleaned path as it is. *)
Lemma Clean_render r st :
  norm_stack r st = true -> Clean (render r st) = render r st.
Proof.
  intros Hn. unfold Clean.
  pose proof (render_nonempty r st Hn) as Hne.
  apply String.eqb_neq in Hne. rewrite Hne.
  rewrite rooted_render, clean_elems_render by assumption. reflexivity.
Qed.

(** Every result of [Clean] is the string of a stack in normal form. *)
Lemma Clean_normal s :
  exists st, norm_stack (rooted s) st = true /\
             Clean s = render (rooted s) st.
Proof.
  unfold Clean. destruct (String.eqb s EmptyString) eqn:E.
  - apply String.eqb_eq in E. subst s. exists []. split; reflexivity.
  - exists (clean_elems (rooted s) (split s)). split; [|reflexivity].
    unfold clean_elems. apply fold_clean_norm; [|reflexivity].
    apply split_elems_no_sep.
Qed.

Lemma Clean_app r st b :
  norm_stack r st = true ->
  Clean (render r st ++ slash ++ b)
  = render r (fold_left (clean_step r) (split b) st).
Proof.
  intros Hn. pose proof (render_nonempty r st Hn) as Hne.
  unfold Clean.
  assert (Hne2 : render r st ++ slash ++ b <> EmptyString).
  { destruct (render r st); [contradiction|discriminate]. }
  apply String.eqb_neq in Hne2. rewrite Hne2.
  rewrite rooted_append, rooted_render by assumption.
  unfold clean_elems. rewrite split_app_sep, fold_left_app.
  fold (clean_elems r (split (render r st))).
  now rewrite clean_elems_render.
Qed.

Lemma Join_render r st b :
  norm_stack r st = true ->
  Join (render r st) b = render r (fold_left (clean_step r) (split b) st).
Proof.
  intros Hn. unfold Join.
  pose proof (render_nonempty r st Hn) as Hne.
  apply String.eqb_neq in Hne. rewrite Hne. cbn [negb].
  now apply Clean_app.
Qed.

Lemma Join_render_name r st n :
  norm_stack r st = true -> valid_name n = true ->
  Join (render r st) n = render r (n :: st).
Proof.
  intros Hn Hv. rewrite Join_render by assumption.
  rewrite split_no_sep by now apply valid_name_no_sep.
  cbn [fold_left]. now rewrite clean_step_name.
Qed.

(** ** [Rel] from a directory to a path below it *)

Lemma rel_strip_prefix B ns : rel_strip B (B ++ ns) = (None, [], ns).
Proof.
  induction B as [|b B IH]; [now destruct ns|].
  rewrite <- app_comm_cons. cbn [rel_strip].
  now rewrite String.eqb_refl.
Qed.

Lemma norm_stack_head_nonempty r x st :
  norm_stack r (x :: st) = true -> x <> EmptyString.
Proof.
  intros H. apply norm_stack_nonempty_elems in H. now inversion H.
Qed.

Lemma elems_render r st :
  norm_stack r st = true -> r = true \/ st <> [] ->
  elems (render r st) = (lead r ++ rev st)%list.
Proof.
  intros Hn Hor. unfold elems, ends_with_sep.
  pose proof (render_nonempty r st Hn) as Hne.
  apply String.eqb_neq in Hne. rewrite Hne.
  rewrite split_render by assumption.
  destruct st as [|x rest].
  - destruct Hor as [-> | H]; [reflexivity|contradiction].
  - cbn [rev]. rewrite app_assoc, last_last.
    pose proof (norm_stack_head_nonempty _ _ _ Hn) as Hx.
    apply String.eqb_neq in Hx. now rewrite Hx.
Qed.

Lemma render_eqb_dot r st :
  norm_stack r st = true ->
  String.eqb (render r st) dot
  = negb r && match st with [] => true | _ => false end.
Proof.
  intros Hn. destruct r; [reflexivity|].
  destruct st as [|x rest]; [reflexivity|].
  cbn [negb andb]. apply String.eqb_neq. intros E.
  apply (f_equal split) in E. rewrite split_render in E by assumption.
  cbn [lead List.app rev] in E. change (split dot) with [dot] in E.
  destruct (rev rest) as [|y l] eqn:Er.
  - cbn [List.app] in E. injection E as ->. discriminate Hn.
  - destruct l; discriminate E.
Qed.

Lemma render_descend_neq r st ns :
  norm_stack r st = true -> ns <> [] ->
  Forall (fun n => valid_name n = true) ns ->
  render r (rev ns ++ st) <> render r st.
Proof.
  intros Hn Hne Hv E.
  assert (Hn2 : norm_stack r (rev ns ++ st) = true)
    by (apply norm_stack_names; [now apply Forall_rev|assumption]).
  apply (f_equal split) in E. rewrite !split_render in E by assumption.
  assert (Hcons : (rev ns ++ st)%list <> []).
  { intros E0. apply app_eq_nil in E0. destruct E0 as [E0 _].
    apply Hne. rewrite <- (rev_involutive ns), E0. reflexivity. }
  destruct (rev ns ++ st)%list as [|z zs] eqn:Ez; [contradiction|].
  rewrite <- Ez, rev_app_distr, rev_involutive in E. clear Ez Hcons Hn2.
  destruct st as [|x rest].
  - cbn [rev List.app] in E. destruct ns as [|n ns']; [contradiction|].
    inversion Hv as [|? ? Hvn _]; subst.
    destruct r; cbn [lead List.app] in E; injection E as E1 E2; subst;
      discriminate Hvn.
  - apply (f_equal (@List.length string)) in E.
    rewrite !length_app in E. destruct ns; [contradiction|].
    cbn [List.length] in E. lia.
Qed.

(** From a cleaned directory to a path that adds the names [ns] to it,
    [Rel] gives these names. *)
Lemma Rel_descend b t r st ns :
  norm_stack r st = true ->
  Clean b = render r st -> Clean t = render r (rev ns ++ st) ->
  ns <> [] -> Forall (fun n => valid_name n = true) ns ->
  Rel b t = Some (join ns).
Proof.
  intros Hn Hb Ht Hne Hv.
  assert (Hn2 : norm_stack r (rev ns ++ st) = true)
    by (apply norm_stack_names; [now apply Forall_rev|assumption]).
  assert (Hcons : (rev ns ++ st)%list <> []).
  { intros E0. apply app_eq_nil in E0. destruct E0 as [E0 _].
    apply Hne. rewrite <- (rev_involutive ns), E0. reflexivity. }
  unfold Rel. rewrite Hb, Ht.
  pose proof (render_descend_neq r st ns Hn Hne Hv) as Hneq.
  apply String.eqb_neq in Hneq. rewrite Hneq.
  rewrite render_eqb_dot by assumption.
  rewrite (rooted_render r (rev ns ++ st)) by assumption.
  rewrite (elems_render r (rev ns ++ st)) by (auto).
  rewrite rev_app_distr, rev_involutive.
  destruct r, st as [|x rest]; cbn [negb andb].
  - rewrite rooted_render, elems_render by auto. cbn [Bool.eqb negb].
    rewrite rel_strip_prefix. reflexivity.
  - rewrite rooted_render, elems_render by auto. cbn [Bool.eqb negb].
    rewrite app_assoc, rel_strip_prefix. reflexivity.
  - cbn [rooted Bool.eqb negb]. change (elems EmptyString) with (@nil string).
    cbn [lead rev List.app]. destruct ns; [contradiction|reflexivity].
  - rewrite rooted_render, elems_render by (auto; right; discriminate).
    cbn [Bool.eqb negb].
    rewrite app_assoc, rel_strip_prefix. reflexivity.
Qed.

Lemma Rel_same b t : Clean b = Clean t -> Rel b t = Some dot.
Proof. intros E. unfold Rel. rewrite E, String.eqb_refl. reflexivity. Qed.

(** ** [Base] of a path that ends in a name *)

Lemma strip_trailing_no_sep n : has_sep n = false -> strip_trailing n = n.
Proof.
  induction n as [|c r IH]; intros H; [reflexivity|].
  cbn [has_sep] in H. apply orb_false_iff in H. destruct H as [Hc Hr].
  cbn [strip_trailing]. rewrite Hc, (IH Hr). reflexivity.
Qed.

Lemma strip_trailing_app a n :
  n <> EmptyString -> has_sep n = false ->
  strip_trailing (a ++ n) = a ++ n.
Proof.
  intros Hne Hs. induction a as [|c r IH].
  - now apply strip_trailing_no_sep.
  - simpl. rewrite IH.
    assert (E : String.eqb (r ++ n) EmptyString = false).
    { apply String.eqb_neq. destruct r; [exact Hne|discriminate]. }
    rewrite E, andb_false_r. reflexivity.
Qed.

Lemma Base_name n : valid_name n = true -> Base n = n.
Proof.
  intros Hv. pose proof Hv as H. apply valid_name_spec in H.
  destruct H as (H1 & _ & _ & H4). unfold Base.
  apply String.eqb_neq in H1. rewrite H1.
  rewrite strip_trailing_no_sep, split_no_sep by assumption.
  cbn [List.last]. now rewrite H1.
Qed.

Lemma Base_app_name a n :
  valid_name n = true -> Base (a ++ slash ++ n) = n.
Proof.
  intros Hv. pose proof Hv as H. apply valid_name_spec in H.
  destruct H as (H1 & _ & _ & H4). unfold Base.
  assert (E : String.eqb (a ++ slash ++ n) EmptyString = false).
  { apply String.eqb_neq. destruct a; discriminate. }
  rewrite E. rewrite <- append_assoc.
  rewrite strip_trailing_app by assumption.
  rewrite append_assoc, split_app_sep, (split_no_sep n H4), last_last.
  apply String.eqb_neq in H1. now rewrite H1.
Qed.

Lemma Base_render_name r st n :
  norm_stack r st = true -> valid_name n = true ->
  Base (render r (n :: st)) = n.
Proof.
  intros Hn Hv. unfold render. cbn [rev].
  destruct (rev st) as [|y l] eqn:Er.
  - cbn [List.app join]. destruct r.
    + change (slash ++ n) with (EmptyString ++ slash ++ n).
      now apply Base_app_name.
    + destruct st; now apply Base_name.
  - assert (Hj : join ((y :: l) ++ [n]) = join (y :: l) ++ slash ++ n)
      by (apply join_snoc; discriminate).
    rewrite Hj. destruct r.
    + rewrite <- append_assoc. now apply Base_app_name.
    + now apply Base_app_name.
Qed.

End PathFacts.

(* ===================================================================== *)
(** * Facts about the tree file system *)
(* ===================================================================== *)

Module TreeFacts.
Import Tree TreeSpec filepath PathSpec PathFacts.

Lemma lookup_child_In es : forall k c,
  distinct (map fst es) = true -> In (k, c) es -> lookup_child es k = Some c.
Proof.
  induction es as [|[k0 c0] r IH]; intros k c Hd Hin; [contradiction|].
  cbn [map fst distinct] in Hd. apply andb_true_iff in Hd.
  destruct Hd as [Hx Hr]. cbn [lookup_child].
  destruct Hin as [E | Hin].
  - injection E as -> ->. now rewrite String.eqb_refl.
  - destruct (String.eqb k0 k) eqn:Ek; [|now apply IH].
    apply String.eqb_eq in Ek. subst k0. exfalso.
    apply negb_true_iff in Hx.
    assert (Hex : existsb (String.eqb k) (map fst r) = true).
    { apply existsb_exists. exists k. split; [|apply String.eqb_refl].
      apply in_map_iff. now exists (k, c). }
    congruence.
Qed.

Lemma lookup_child_Some_In es : forall k c,
  lookup_child es k = Some c -> In (k, c) es.
Proof.
  induction es as [|[k0 c0] r IH]; intros k c H; [discriminate|].
  cbn [lookup_child] in H. destruct (String.eqb k0 k) eqn:Ek.
  - apply String.eqb_eq in Ek. injection H as ->. subst. now left.
  - right. now apply IH.
Qed.

Lemma node_at_app root : forall loc n k,
  node_at root loc = Some n ->
  node_at root (loc ++ [k])
  = match n with
    | Dir _ es => lookup_child es k
    | File _ _ => None
    end.
Proof.
  intros loc. revert root.
  induction loc as [|x r IH]; intros root n k H.
  - injection H as ->. cbn [List.app node_at].
    destruct n as [|t es]; [reflexivity|].
    destruct (lookup_child es k); reflexivity.
  - rewrite <- app_comm_cons. cbn [node_at] in *.
    destruct root as [|t es]; [discriminate|].
    destruct (lookup_child es x) as [c|]; [|discriminate].
    now apply IH.
Qed.

Lemma wf_child t es k c :
  wf (Dir t es) = true -> In (k, c) es ->
  valid_name k = true /\ wf c = true /\ height c < height (Dir t es).
Proof.
  cbn [wf height]. intros H Hin. apply andb_true_iff in H.
  destruct H as [_ H]. rewrite forallb_forall in H.
  specialize (H (k, c) Hin). cbn [fst snd] in H.
  apply andb_true_iff in H. destruct H as [Hv Hw].
  repeat split; auto.
  assert (Hle : height c <= list_max (map (fun e => height (snd e)) es)).
  { pose proof (list_max_le (map (fun e => height (snd e)) es)
                  (list_max (map (fun e => height (snd e)) es))) as [Hm _].
    specialize (Hm (le_n _)). rewrite List.Forall_forall in Hm.
    apply Hm. apply in_map_iff. now exists (k, c). }
  lia.
Qed.

Lemma wf_node_at root : forall loc n,
  wf root = true -> node_at root loc = Some n ->
  wf n = true /\ height n <= height root.
Proof.
  intros loc. revert root.
  induction loc as [|x r IH]; intros root n Hw H.
  - injection H as ->. auto.
  - cbn [node_at] in H. destruct root as [|t es]; [discriminate|].
    destruct (lookup_child es x) as [c|] eqn:Ec; [|discriminate].
    apply lookup_child_Some_In in Ec.
    destruct (wf_child t es x c Hw Ec) as (_ & Hwc & Hh).
    destruct (IH c n Hwc H) as [H1 H2]. split; [exact H1|lia].
Qed.

(** ** Resolution of a cleaned path and of a name below it *)

Lemma walk_step_name root loc t es n c :
  node_at root loc = Some (Dir t es) -> valid_name n = true ->
  lookup_child es n = Some c ->
  walk_step root (Some loc) n = Some (loc ++ [n])%list.
Proof.
  intros Hn Hv Hc. unfold walk_step. rewrite Hn.
  apply valid_name_spec in Hv. destruct Hv as (H1 & H2 & H3 & _).
  apply String.eqb_neq in H1, H2, H3. rewrite H1, H2, H3, Hc. reflexivity.
Qed.

Lemma walk_step_stay root loc seg :
  seg = EmptyString \/ seg = dot ->
  walk_step root (Some loc) seg
  = match node_at root loc with
    | Some (Dir _ _) => Some loc
    | _ => None
    end.
Proof.
  intros H. unfold walk_step.
  destruct (node_at root loc) as [[|t es]|]; try reflexivity.
  destruct H as [-> | ->]; reflexivity.
Qed.

Lemma walk_None root segs : fold_left (walk_step root) segs None = None.
Proof. induction segs; auto. Qed.

Lemma resolve_child root cwd r st n loc t es c :
  norm_stack r st = true -> valid_name n = true ->
  resolve root cwd (render r st) = Some loc ->
  node_at root loc = Some (Dir t es) ->
  lookup_child es n = Some c ->
  resolve root cwd (render r (n :: st)) = Some (loc ++ [n])%list.
Proof.
  intros Hn Hv Hres Hnode Hc.
  assert (Hn2 : norm_stack r (n :: st) = true)
    by (apply (norm_stack_names r [n] st); auto).
  unfold resolve in *.
  pose proof (render_nonempty r st Hn) as Hne.
  pose proof (render_nonempty r (n :: st) Hn2) as Hne2.
  apply String.eqb_neq in Hne, Hne2. rewrite Hne in Hres. rewrite Hne2.
  rewrite rooted_render in * by assumption.
  rewrite split_render in * by assumption.
  cbn [rev]. rewrite app_assoc, fold_left_app. cbn [fold_left].
  destruct st as [|x rest].
  - cbn [rev List.app]. rewrite app_nil_r.
    destruct r; cbn [lead fold_left] in *.
    + rewrite !walk_step_stay in Hres by auto.
      rewrite walk_step_stay by auto.
      cbn [node_at] in *.
      destruct root as [|t0 es0]; [discriminate|].
      injection Hres as <-. eapply walk_step_name; eauto.
    + rewrite walk_step_stay in Hres by auto.
      destruct (node_at root cwd) as [[|t0 es0]|] eqn:Ecwd;
        try discriminate.
      injection Hres as <-. eapply walk_step_name; eauto.
  - rewrite Hres. eapply walk_step_name; eauto.
Qed.

(** ** Writing to a working connection *)

Lemma Write_healthy c w :
  w_broken w = false ->
  snd (Write c w) = None /\ w_broken (fst (Write c w)) = false.
Proof.
  intros H. unfold Write, WriteHeader.
  destruct (w_wrote w); simpl; rewrite H; auto.
Qed.

Lemma Write_healthy_eq c w :
  w_broken w = false -> Write c w = (fst (Write c w), None).
Proof.
  intros H. destruct (Write_healthy c w H) as [H1 _].
  destruct (Write c w); simpl in *. now subst.
Qed.

Lemma write_chunks_healthy cs : forall w,
  w_broken w = false -> w_broken (write_chunks cs w) = false.
Proof.
  induction cs as [|c cs IH]; intros w H; [exact H|].
  cbn [write_chunks fold_left]. apply IH. now apply Write_healthy.
Qed.

Lemma write_chunks_app a b w :
  write_chunks (a ++ b) w = write_chunks b (write_chunks a w).
Proof. unfold write_chunks. apply fold_left_app. Qed.

Lemma Write_body c w :
  w_broken w = false -> w_body (fst (Write c w)) = (w_body w ++ [c])%list.
Proof.
  intros H. unfold Write, WriteHeader.
  destruct (w_wrote w); simpl; rewrite H; reflexivity.
Qed.

Lemma write_chunks_body cs : forall w,
  w_broken w = false -> w_body (write_chunks cs w) = (w_body w ++ cs)%list.
Proof.
  induction cs as [|c cs IH]; intros w H.
  - cbn. now rewrite app_nil_r.
  - cbn [write_chunks fold_left]. fold (write_chunks cs (fst (Write c w))).
    rewrite IH by now apply Write_healthy.
    rewrite Write_body by assumption. now rewrite <- app_assoc.
Qed.

Lemma write_chunks_status cs : forall w,
  status (write_chunks cs w) = status w.
Proof.
  induction cs as [|c cs IH]; intros w; [reflexivity|].
  cbn [write_chunks fold_left]. fold (write_chunks cs (fst (Write c w))).
  rewrite IH. apply status_Write.
Qed.

Lemma for_range_map {A B} (f : A -> B) body l : forall zw,
  Extended.for_range body (map f l) zw
  = Extended.for_range (fun zw x => body zw (f x)) l zw.
Proof.
  induction l as [|x r IH]; intros zw; [reflexivity|].
  cbn [map Extended.for_range].
  destruct (body zw (f x)) as [[zw' [e|]]|]; auto.
Qed.

Lemma for_range_chunks {A} body (g : A -> list chunk) l :
  (forall x zw, In x l -> w_broken zw = false ->
     body zw x = Some (write_chunks (g x) zw, None)) ->
  forall zw, w_broken zw = false ->
    Extended.for_range body l zw
    = Some (write_chunks (flat_map g l) zw, None).
Proof.
  induction l as [|x r IH]; intros Hb zw Hw; [reflexivity|].
  cbn [Extended.for_range flat_map].
  rewrite Hb by (auto; now left).
  rewrite IH.
  - now rewrite write_chunks_app.
  - intros y zw0 Hy Hw0. apply Hb; auto. now right.
  - now apply write_chunks_healthy.
Qed.

End TreeFacts.

(* ===================================================================== *)
(** * The archive builder on a tree *)
(* ===================================================================== *)

Module ArchiveFacts.
Import Tree TreeSpec filepath PathSpec PathFacts TreeFacts.

Lemma info_IsDir k n : fi_IsDir (info k n) = is_dir n.
Proof. destruct n; reflexivity. Qed.

Lemma info_Name k n : fi_Name (info k n) = k.
Proof. destruct n; reflexivity. Qed.

Lemma flat_map_flat_map {A B C} (f : A -> list B) (g : B -> list C) l :
  flat_map g (flat_map f l) = flat_map (fun x => flat_map g (f x)) l.
Proof.
  induction l as [|x r IH]; [reflexivity|].
  cbn [flat_map]. now rewrite flat_map_app, IH.
Qed.

(** [addToArchive] on a path that adds the names [ns] to the cleaned
    directory [d]: with fuel above the height of the node the path leads
    to, it writes an entry for each file at or below that node, named by
    the path from [d]. *)
Lemma addToArchive_tree root cwd r st :
  norm_stack r st = true ->
  forall fuel ns loc n zw,
    Forall (fun k => valid_name k = true) ns ->
    resolve root cwd (render r (rev ns ++ st)) = Some loc ->
    node_at root loc = Some n ->
    wf n = true -> height n < fuel ->
    w_broken zw = false ->
    ns <> [] \/ is_dir n = true ->
    Extended.addToArchive fuel (Tree.os root cwd) zw
      (render r st) (render r (rev ns ++ st))
    = Some (write_chunks (flat_map zip_entry (files_under ns n)) zw, None).
Proof.
  intros Hst.
  induction fuel as [|fuel IH];
    intros ns loc n zw Hns Hres Hnode Hwf Hh Hw Hor; [lia|].
  assert (Hn2 : norm_stack r (rev ns ++ st) = true)
    by (apply norm_stack_names; [now apply Forall_rev|assumption]).
  cbn [Extended.addToArchive].
  assert (Hrel : exists rel,
            Rel (render r st) (render r (rev ns ++ st)) = Some rel /\
            (ns <> [] -> rel = join ns)).
  { destruct ns as [|k ns'].
    - exists dot. split; [|intros H; contradiction].
      apply Rel_same. reflexivity.
    - exists (join (k :: ns')). split; [|reflexivity].
      apply (Rel_descend _ _ r st (k :: ns'));
        [exact Hst|now apply Clean_render|now apply Clean_render
        |discriminate|exact Hns]. }
  destruct Hrel as (rel & Hrel & Hrel_eq). rewrite Hrel.
  assert (Hlook : lookup root cwd (render r (rev ns ++ st)) = Some n)
    by (unfold lookup; now rewrite Hres).
  cbn [os_Open f_Stat f_ReadAll ReadDir Tree.os fst snd].
  rewrite Hlook. cbn [fst snd]. rewrite info_IsDir.
  destruct n as [data mt | mt es]; cbn [is_dir].
  - (* a regular file *)
    destruct Hor as [Hne | Hd]; [|discriminate].
    rewrite (Hrel_eq Hne). unfold zip_Create.
    rewrite (Write_healthy_eq (ZipHeader (join ns)) zw Hw).
    destruct (Write_healthy (ZipHeader (join ns)) zw Hw) as [_ Hw1].
    cbn [files_under flat_map]. rewrite app_nil_r.
    unfold io_Copy, zip_entry. cbn [fst snd].
    destruct (String.eqb data EmptyString); [reflexivity|].
    unfold zip_Write.
    rewrite (Write_healthy_eq (ZipData data) _ Hw1). reflexivity.
  - (* a directory *)
    rewrite for_range_map.
    rewrite (for_range_chunks _
               (fun e => flat_map zip_entry
                           (files_under (ns ++ [fst e]) (snd e)))).
    + cbn [files_under]. now rewrite flat_map_flat_map.
    + intros [k c] zw0 Hin Hw0. cbn [fst snd]. rewrite info_Name.
      destruct (wf_child mt es k c Hwf Hin) as (Hvk & Hwc & Hhc).
      rewrite Join_render_name by assumption.
      assert (Hc : lookup_child es k = Some c).
      { apply lookup_child_In; [|assumption].
        cbn [wf] in Hwf. now apply andb_true_iff in Hwf. }
      replace (k :: rev ns ++ st)%list with (rev (ns ++ [k]) ++ st)%list
        by (rewrite rev_app_distr; reflexivity).
      apply IH with (loc := (loc ++ [k])%list).
      * apply Forall_app. split; [assumption|]. constructor; auto.
      * rewrite rev_app_distr. cbn [rev List.app].
        eapply resolve_child; eauto.
      * rewrite (node_at_app root loc (Dir mt es) k Hnode). exact Hc.
      * exact Hwc.
      * lia.
      * exact Hw0.
      * left. destruct ns; discriminate.
    + exact Hw.
Qed.

Lemma zip_Close_chunks zw : zip_Close zw = write_chunks [ZipEnd] zw.
Proof. reflexivity. Qed.

Lemma write_zip_stream fs w :
  zip_Close (write_chunks (flat_map zip_entry fs) w)
  = write_chunks (zip_stream fs) w.
Proof.
  unfold zip_stream. rewrite write_chunks_app, <- flat_map_concat_map.
  reflexivity.
Qed.

(** [archive] with no name selected. *)
Lemma archive_all root cwd r st loc t es fuel w :
  norm_stack r st = true ->
  resolve root cwd (render r st) = Some loc ->
  node_at root loc = Some (Dir t es) ->
  wf (Dir t es) = true -> height (Dir t es) < fuel ->
  w_broken w = false ->
  Extended.archive fuel (Tree.os root cwd) w (render r st) []
  = Some (write_chunks (zip_stream (files_under [] (Dir t es))) w, None).
Proof.
  intros Hst Hres Hnode Hwf Hh Hw. unfold Extended.archive.
  pose proof (addToArchive_tree root cwd r st Hst fuel [] loc (Dir t es) w
                (List.Forall_nil _) Hres Hnode Hwf Hh Hw (or_intror eq_refl))
    as H.
  cbn [rev List.app] in H. rewrite H.
  cbn [Extended.for_range]. now rewrite write_zip_stream.
Qed.

(** [archive] with entries of the directory selected by name. *)
Lemma archive_selected root cwd r st loc t es fuel w names :
  norm_stack r st = true ->
  resolve root cwd (render r st) = Some loc ->
  node_at root loc = Some (Dir t es) ->
  wf (Dir t es) = true -> height (Dir t es) < fuel ->
  w_broken w = false ->
  names <> [] ->
  (forall nm, In nm names -> In nm (map fst es)) ->
  Extended.archive fuel (Tree.os root cwd) w (render r st) names
  = Some (write_chunks (zip_stream (selected es names)) w, None).
Proof.
  intros Hst Hres Hnode Hwf Hh Hw Hne Hin. unfold Extended.archive.
  destruct names as [|n0 names0] eqn:En; [contradiction|].
  rewrite <- En in *. clear Hne.
  rewrite (for_range_chunks _
             (fun nm => flat_map zip_entry
                          match lookup_child es nm with
                          | Some c => files_under [nm] c
                          | None => []
                          end)).
  - rewrite <- flat_map_flat_map. fold (selected es names).
    now rewrite write_zip_stream.
  - intros nm zw Hnm Hzw. specialize (Hin nm Hnm).
    apply in_map_iff in Hin. destruct Hin as ([k c] & Ek & Hkc).
    cbn [fst] in Ek. subst k.
    destruct (wf_child t es nm c Hwf Hkc) as (Hv & Hwc & Hhc).
    assert (Hc : lookup_child es nm = Some c).
    { apply lookup_child_In; [|assumption].
      cbn [wf] in Hwf. now apply andb_true_iff in Hwf. }
    rewrite Hc, Join_render_name by assumption.
    apply (addToArchive_tree root cwd r st Hst fuel [nm]
             (loc ++ [nm])%list c zw).
    + constructor; auto.
    + cbn [rev List.app]. eapply resolve_child; eauto.
    + rewrite (node_at_app root loc (Dir t es) nm Hnode). exact Hc.
    + exact Hwc.
    + lia.
    + exact Hzw.
    + left. discriminate.
  - exact Hw.
Qed.

Lemma Clean_nonempty s : Clean s <> EmptyString.
Proof.
  destruct (Clean_normal s) as (st & Hn & E). rewrite E.
  now apply render_nonempty.
Qed.

(** A path the handlers build with [Join] is a cleaned path. *)
Lemma Join_normal a b :
  a <> EmptyString \/ b <> EmptyString ->
  exists r st, norm_stack r st = true /\ Join a b = render r st.
Proof.
  intros Hor. unfold Join.
  destruct (String.eqb a EmptyString) eqn:Ea; cbn [negb].
  - destruct (String.eqb b EmptyString) eqn:Eb; cbn [negb].
    + apply String.eqb_eq in Ea, Eb. tauto.
    + destruct (Clean_normal b) as (st & Hn & E). eauto.
  - destruct (Clean_normal (a ++ slash ++ b)) as (st & Hn & E). eauto.
Qed.

(** ** The entries of [files_under] are the files below the node *)

Lemma height_child t es k c :
  In (k, c) es -> height c < height (Dir t es).
Proof.
  intros Hin. cbn [height].
  assert (Hle : height c <= list_max (map (fun e => height (snd e)) es)).
  { pose proof (list_max_le (map (fun e => height (snd e)) es)
                  (list_max (map (fun e => height (snd e)) es))) as [Hm _].
    specialize (Hm (le_n _)). rewrite List.Forall_forall in Hm.
    apply Hm. apply in_map_iff. now exists (k, c). }
  lia.
Qed.

Lemma files_under_complete : forall path n pre data mt,
  node_at n path = Some (File data mt) ->
  In (join (pre ++ path), data) (files_under pre n).
Proof.
  induction path as [|x rest IH]; intros n pre data mt H.
  - injection H as ->. rewrite app_nil_r. now left.
  - cbn [node_at] in H. destruct n as [|t es]; [discriminate|].
    destruct (lookup_child es x) as [c|] eqn:Ec; [|discriminate].
    cbn [files_under]. apply in_flat_map. exists (x, c).
    split; [now apply lookup_child_Some_In|]. cbn [fst snd].
    replace (pre ++ x :: rest)%list with ((pre ++ [x]) ++ rest)%list
      by (now rewrite <- app_assoc).
    eapply IH; eauto.
Qed.

Lemma files_under_sound : forall h n pre p data,
  height n < h -> wf n = true ->
  In (p, data) (files_under pre n) ->
  exists path mt,
    p = join (pre ++ path) /\ node_at n path = Some (File data mt).
Proof.
  induction h as [|h IH]; intros n pre p data Hh Hwf Hin; [lia|].
  destruct n as [d mt | t es].
  - cbn [files_under] in Hin. destruct Hin as [E | []].
    injection E as <- <-. exists [], mt. now rewrite app_nil_r.
  - cbn [files_under] in Hin. apply in_flat_map in Hin.
    destruct Hin as ([k c] & Hkc & Hin). cbn [fst snd] in Hin.
    destruct (wf_child t es k c Hwf Hkc) as (Hv & Hwc & Hhc).
    destruct (IH c (pre ++ [k])%list p data) as (path & mt & Ep & Hp);
      [lia|assumption|assumption|].
    exists (k :: path), mt. split.
    + rewrite Ep. now rewrite <- app_assoc.
    + cbn [node_at]. rewrite (lookup_child_In es k c); auto.
      cbn [wf] in Hwf. now apply andb_true_iff in Hwf.
Qed.

End ArchiveFacts.

(* ===================================================================== *)
(** * The archive of a POST request *)
(* ===================================================================== *)

Section ArchiveClaims.
Import Tree TreeSpec filepath PathSpec PathFacts TreeFacts ArchiveFacts.

Lemma selected_files t es names p data :
  wf (Dir t es) = true ->
  In (p, data) (selected es names) <->
  exists nm path mt,
    In nm names /\ p = join (nm :: path) /\
    node_at (Dir t es) (nm :: path) = Some (File data mt).
Proof.
  intros Hwf.
  assert (Hd : distinct (map fst es) = true)
    by (cbn [wf] in Hwf; now apply andb_true_iff in Hwf).
  unfold selected. rewrite in_flat_map. split.
  - intros (nm & Hnm & Hin).
    destruct (lookup_child es nm) as [c|] eqn:Ec; [|contradiction].
    pose proof (lookup_child_Some_In _ _ _ Ec) as Hkc.
    destruct (wf_child t es nm c Hwf Hkc) as (_ & Hwc & _).
    destruct (files_under_sound (S (height c)) c [nm] p data)
      as (path & mt & Ep & Hp); [lia|assumption|assumption|].
    exists nm, path, mt. repeat split; auto.
    cbn [node_at]. now rewrite Ec.
  - intros (nm & path & mt & Hnm & Ep & Hp).
    exists nm. split; [assumption|].
    cbn [node_at] in Hp.
    destruct (lookup_child es nm) as [c|] eqn:Ec; [|discriminate].
    subst p. apply (files_under_complete path c [nm] data mt Hp).
Qed.

(** C1.  A POST to a directory of a well-formed tree, on a working
    connection, is answered with status 200 and a zip stream.  With no
    name selected the stream holds an entry for every regular file at any
    depth below the directory; with names of entries of the directory
    selected it holds the selected files and every regular file below the
    selected directories, and nothing else.  Each entry is named by the
    path that leads from the directory to the file and holds the content
    of the file.  Entries come depth first, in the order of the selection
    and of the directory listings. *)
Theorem archive_contents :
  forall (root : node) (cwd : list string) (a : app) (r : Request)
         (names loc : list string) (t : Fmt.Time)
         (es : list (string * node)) (fuel : nat),
    wf root = true ->
    Method r = MethodPost ->
    Form_files r = Ok names ->
    resolve root cwd (Join (dir a) (Clean (URL_Path r))) = Some loc ->
    node_at root loc = Some (Dir t es) ->
    (forall nm, In nm names -> In nm (map fst es)) ->
    height root < fuel ->
    let entries :=
      match names with
      | [] => files_under [] (Dir t es)
      | _ => selected es names
      end in
    (exists w',
       Extended.handler fuel (Tree.os root cwd) a (newResponse false) r
       = Some w'
       /\ status w' = StatusOK /\ w_body w' = zip_stream entries)
    /\ (forall p data,
          In (p, data) entries <->
          exists path mt,
            p = join path /\
            node_at (Dir t es) path = Some (File data mt) /\
            (names = [] \/
             exists nm rest, path = nm :: rest /\ In nm names)).
Proof.
  intros root cwd a r names loc t es fuel Hwf Hm Hf Hres Hnode Hsel Hfuel
         entries.
  destruct (wf_node_at root loc (Dir t es) Hwf Hnode) as [Hwd Hhd].
  split.
  - destruct (Join_normal (dir a) (Clean (URL_Path r)))
      as (rt & st & Hst & Ed); [right; apply Clean_nonempty|].
    unfold Extended.handler, Extended.handlePost.
    rewrite Hm, Hf. change (String.eqb MethodPost MethodGet) with false.
    rewrite String.eqb_refl. cbv iota.
    set (w1 := Header_Set "Content-Disposition" _ _).
    assert (Hw1 : w_broken w1 = false) by reflexivity.
    rewrite Ed in *.
    assert (Harch :
      Extended.archive fuel (Tree.os root cwd) w1 (render rt st) names
      = Some (write_chunks (zip_stream entries) w1, None)).
    { subst entries. destruct names as [|n0 ns0] eqn:En.
      - eapply archive_all; eauto. lia.
      - rewrite <- En in *. eapply archive_selected; eauto; [lia|].
        rewrite En. discriminate. }
    rewrite Harch. eexists. split; [reflexivity|]. split.
    + now rewrite write_chunks_status.
    + now rewrite write_chunks_body.
  - intros p data. subst entries. destruct names as [|n0 ns0] eqn:En.
    + split.
      * intros Hin.
        destruct (files_under_sound (S (height (Dir t es))) (Dir t es)
                    [] p data) as (path & mt & Ep & Hp);
          [lia|assumption|assumption|].
        exists path, mt. auto.
      * intros (path & mt & Ep & Hp & _). subst p.
        apply (files_under_complete path (Dir t es) [] data mt Hp).
    + rewrite <- En in *.
      rewrite (selected_files t es names p data) by exact Hwd.
      split.
      * intros (nm & path & mt & Hnm & Ep & Hp).
        exists (nm :: path), mt. repeat split; auto.
        right. eauto.
      * intros (path & mt & Ep & Hp & [E | (nm & rest & E & Hnm)]).
        { rewrite En in E. discriminate. }
        subst path. exists nm, rest, mt. auto.
Qed.

Lemma archive_contents_witness :
  exists w',
    Extended.handler 6 Sample.sys Sample.here (newResponse false)
      (Sample.POST "/" ["sub"; "asdf"]) = Some w'
    /\ status w' = StatusOK
    /\ w_body w' = [ZipHeader "sub/x"; ZipData "xx";
                    ZipHeader "asdf"; ZipData "content-A"; ZipEnd].
Proof.
  assert (Hsel : forall nm, In nm ["sub"; "asdf"] ->
                   In nm (map fst [ ("qwer", File "content-B" Sample.t0);
                                    ("asdf", File "content-A" Sample.t0);
                                    ("sub", Dir Sample.t0
                                       [ ("x", File "xx" Sample.t0);
                                         ("empty", Dir Sample.t0 []) ]) ])).
  { intros nm [<- | [<- | []]]; cbn; auto. }
  pose proof (archive_contents Sample.root Sample.cwd Sample.here
                (Sample.POST "/" ["sub"; "asdf"]) ["sub"; "asdf"]
                Sample.cwd Sample.t0 _ 6
                eq_refl eq_refl eq_refl eq_refl eq_refl Hsel
                ltac:(vm_compute; lia)) as H.
  exact (proj1 H).
Defined.

End ArchiveClaims.

(* ===================================================================== *)
(** * The listing page *)
(* ===================================================================== *)

Module ListingFacts.
Import PathFacts.

#[local] Arguments String.append !s1 s2 : simpl nomatch.

Lemma contains_refl s : contains s s.
Proof. exists EmptyString, EmptyString. now rewrite append_nil_r. Qed.

Lemma contains_app_l a s h : contains s h -> contains s (a ++ h).
Proof.
  intros (pre & post & ->). exists (a ++ pre), post.
  now rewrite append_assoc.
Qed.

Lemma contains_app_r b s h : contains s h -> contains s (h ++ b).
Proof.
  intros (pre & post & ->). exists pre, (post ++ b).
  now rewrite !append_assoc.
Qed.

Lemma contains_trans a b c : contains a b -> contains b c -> contains a c.
Proof.
  intros (p1 & q1 & ->) (p2 & q2 & ->). exists (p2 ++ p1), (q1 ++ q2).
  now rewrite !append_assoc.
Qed.

(** A needle that straddles three pieces: the end of [a], all of [m], the
    beginning of [b]. *)
Lemma contains_straddle a1 x m y b2 a b :
  a = a1 ++ x -> b = y ++ b2 -> contains (x ++ m ++ y) (a ++ m ++ b).
Proof.
  intros -> ->. exists a1, b2. now rewrite !append_assoc.
Qed.

Lemma concat_str_app a b :
  concat_str (a ++ b) = concat_str a ++ concat_str b.
Proof.
  induction a as [|x r IH]; [reflexivity|].
  change (concat_str ((x :: r) ++ b)) with (x ++ concat_str (r ++ b)).
  rewrite IH. change (concat_str (x :: r)) with (x ++ concat_str r).
  now rewrite append_assoc.
Qed.

Lemma concat_str_flat_map {A} (f : A -> list string) l :
  concat_str (flat_map f l) = concat_str (map (fun x => concat_str (f x)) l).
Proof.
  induction l as [|x r IH]; [reflexivity|].
  cbn [flat_map map]. rewrite concat_str_app, IH. reflexivity.
Qed.

Lemma contains_concat_str s l : In s l -> contains s (concat_str l).
Proof.
  induction l as [|x r IH]; intros H; [contradiction|].
  change (concat_str (x :: r)) with (x ++ concat_str r).
  destruct H as [-> | H].
  - apply contains_app_r, contains_refl.
  - apply contains_app_l. now apply IH.
Qed.

Lemma body_text_app a b : body_text (a ++ b) = body_text a ++ body_text b.
Proof.
  induction a as [|c r IH]; [reflexivity|].
  destruct c; cbn [List.app body_text]; rewrite IH;
    [now rewrite append_assoc| | |]; reflexivity.
Qed.

Lemma write_all_healthy ps : forall w,
  w_broken w = false ->
  snd (write_all ps w) = None
  /\ w_broken (fst (write_all ps w)) = false
  /\ body_text (w_body (fst (write_all ps w)))
     = body_text (w_body w) ++ concat_str ps.
Proof.
  induction ps as [|p r IH]; intros w Hw.
  - cbn. now rewrite append_nil_r.
  - cbn [write_all].
    rewrite (TreeFacts.Write_healthy_eq (Bytes p) w Hw).
    destruct (TreeFacts.Write_healthy (Bytes p) w Hw) as [_ Hw1].
    destruct (IH _ Hw1) as (H1 & H2 & H3). repeat split; auto.
    rewrite H3, TreeFacts.Write_body by assumption.
    rewrite body_text_app.
    change (concat_str (p :: r)) with (p ++ concat_str r).
    change (body_text [Bytes p]) with (p ++ EmptyString).
    now rewrite append_nil_r, append_assoc.
Qed.

Lemma listing_text_exec t path files :
  listing_text t path files
  = concat_str (exec t path (map (toFile path) files)).
Proof.
  unfold listing_text, serveDir, Execute.
  destruct (write_all_healthy (exec t path (map (toFile path) files))
              (newResponse false) eq_refl) as (_ & _ & H).
  exact H.
Qed.

Lemma rows_text t path files :
  concat_str (flat_map (exec_row (range_body t)) (map (toFile path) files))
  = concat_str (map (row_text t path) files).
Proof.
  rewrite concat_str_flat_map, map_map. reflexivity.
Qed.

(** The page of either variant: a head that shows the path twice, the
    rows, a tail. *)
Lemma listing_text_Basic path files :
  listing_text Basic.listTemplate path files
  = Basic.page_1 ++ path ++ Basic.page_2 ++ path ++ Basic.page_3
    ++ concat_str (map (row_text Basic.listTemplate path) files)
    ++ Basic.page_4.
Proof.
  rewrite listing_text_exec, <- rows_text.
  change (exec Basic.listTemplate path (map (toFile path) files))
    with ([Basic.page_1; path; Basic.page_2; path; Basic.page_3]
          ++ flat_map (exec_row Basic.row) (map (toFile path) files)
          ++ [Basic.page_4])%list.
  rewrite !concat_str_app.
  change (concat_str [Basic.page_4]) with (Basic.page_4 ++ EmptyString).
  change (concat_str [Extended.page_4])
    with (Extended.page_4 ++ EmptyString).
  rewrite append_nil_r. unfold concat_str at 1. cbn [fold_right].
  rewrite !append_assoc. reflexivity.
Qed.


Ltac normalize_appends := rewrite ?append_assoc; reflexivity.

Lemma row_text_Basic path e :
  row_text Basic.listTemplate path e
  = Basic.row_1 ++ filepath.Join path (fi_Name e) ++ Basic.row_2
    ++ fi_Name e ++ Basic.row_3
    ++ cell (fi_IsDir e) (Fmt.itoa (fi_Size e)) ++ Basic.row_4
    ++ cell (fi_IsDir e) (Fmt.Format (fi_ModTime e)) ++ Basic.row_5.
Proof.
  unfold row_text. change (range_body Basic.listTemplate) with Basic.row.
  unfold exec_row, Basic.row, cell.
  cbn [flat_map exec_rnode exec_inode print_field map List.app toFile
       Path Name Size ModTime IsDir].
  destruct (fi_IsDir e); cbn [negb map List.app];
    unfold concat_str; cbn [fold_right];
    rewrite ?append_assoc, ?append_nil_r; reflexivity.
Qed.


Lemma anchor_eq path e :
  anchor path e
  = a_open ++ filepath.Join path (fi_Name e) ++ a_mid ++ fi_Name e
    ++ a_close.
Proof. unfold anchor, a_open, a_mid, a_close. normalize_appends. Qed.

Lemma cell_file s : cell false s = " " ++ s ++ " ".
Proof. reflexivity. Qed.




Lemma contains_anchor a1 x m1 mid m2 z c2 a c rest :
  a = a1 ++ x -> c = z ++ c2 ->
  contains (x ++ m1 ++ mid ++ m2 ++ z)
    (a ++ m1 ++ mid ++ m2 ++ c ++ rest).
Proof.
  intros -> ->. exists a1, (c2 ++ rest). now rewrite !append_assoc.
Qed.

Lemma Basic_row_anchor path e :
  contains (anchor path e) (row_text Basic.listTemplate path e).
Proof.
  rewrite row_text_Basic, anchor_eq.
  change Basic.row_2 with a_mid.
  apply (contains_anchor (cut_end Basic.row_1 a_open) a_open
           (filepath.Join path (fi_Name e)) a_mid (fi_Name e) a_close
           (cut_start Basic.row_3 a_close) Basic.row_1 Basic.row_3);
    vm_compute; reflexivity.
Qed.






(** ** The time layout *)









End ListingFacts.

Section ListingClaims.
Import ListingFacts PathFacts.



End ListingClaims.

(* ===================================================================== *)
(** * The order of directory entries *)
(* ===================================================================== *)

Section OrderClaims.
Import ListingFacts PathFacts TreeFacts.




(** The sample directory lists [qwer] before [asdf]: so does the archive. *)
Example archive_keeps_listing_order :
  option_map w_body
    (Extended.handler 6 Sample.sys Sample.here (newResponse false)
       (Sample.POST "/" []))
  = Some [ ZipHeader "qwer"; ZipData "content-B";
           ZipHeader "asdf"; ZipData "content-A";
           ZipHeader "sub/x"; ZipData "xx"; ZipEnd ].
Proof. vm_compute. reflexivity. Qed.

End OrderClaims.

(* ===================================================================== *)
(** * Paths that leave the served directory *)
(* ===================================================================== *)

Section TraversalClaims.
Import Tree TreeSpec filepath PathSpec PathFacts TreeFacts ArchiveFacts.


(** C10.  [archive] joins each selected name onto the directory and hands
    the result to [addToArchive], whatever the name is.  There is a POST
    whose selected name holds [..] elements and whose zip holds a file from
    outside the directory of the request, under an entry name that begins
    with [../]. *)
Theorem archive_leaves_directory :
  (forall fuel sys w d name,
     Extended.archive fuel sys w d [name]
     = match Extended.addToArchive fuel sys w d (Join d name) with
       | None => None
       | Some (zw, e) => Some (zip_Close zw, e)
       end)
  /\ exists (root : node) (cwd : list string) (a : app) (r : Request)
            (name entry data : string) (base outside : list string)
            (mt : Fmt.Time),
       let d := Join (dir a) (Clean (URL_Path r)) in
       wf root = true /\
       Method r = MethodPost /\ Form_files r = Ok [name] /\
       has_dotdot name = true /\
       resolve root cwd d = Some base /\
       resolve root cwd (Join d name) = Some outside /\
       below base outside = false /\
       node_at root outside = Some (File data mt) /\
       String.prefix "../" entry = true /\
       option_map (fun w => (status w, w_body w))
         (Extended.handler 1 (Tree.os root cwd) a (newResponse false) r)
       = Some (StatusOK, [ZipHeader entry; ZipData data; ZipEnd]).
Proof.
  split.
  - intros fuel sys w d name. unfold Extended.archive.
    cbn [Extended.for_range].
    destruct (Extended.addToArchive fuel sys w d (Join d name))
      as [[zw [e|]]|]; reflexivity.
  - exists Sample.root, Sample.cwd, Sample.here,
           (Sample.POST "/sub" ["../../../etc/passwd"]),
           "../../../etc/passwd", "../../../etc/passwd", "root:x",
           ["srv"; "www"; "sub"], ["etc"; "passwd"], Sample.t0.
    vm_compute. repeat split; reflexivity.
Qed.

End TraversalClaims.

(* ===================================================================== *)
(** * Rooted URL paths, and the name of the archive *)
(* ===================================================================== *)

Module JoinFacts.
Import filepath PathSpec PathFacts.

#[local] Arguments String.append !s1 s2 : simpl nomatch.

Lemma norm_stack_rooted_names st :
  norm_stack true st = true -> Forall (fun n => valid_name n = true) st.
Proof.
  induction st as [|x rest IH]; intros H; [constructor|].
  cbn [norm_stack] in H. destruct (String.eqb x dotdot); [discriminate|].
  apply andb_true_iff in H. destruct H as [Hv Hr]. constructor; auto.
Qed.

Lemma Clean_def s :
  s <> EmptyString ->
  Clean s = render (rooted s) (clean_elems (rooted s) (split s))
  /\ norm_stack (rooted s) (clean_elems (rooted s) (split s)) = true.
Proof.
  intros H. unfold Clean. apply String.eqb_neq in H. rewrite H.
  split; [reflexivity|]. unfold clean_elems.
  apply fold_clean_norm; [apply split_elems_no_sep|reflexivity].
Qed.

(** Joining a cleaned rooted path onto a directory puts its names on top
    of the cleaned directory. *)
Lemma Join_rooted d st :
  d <> EmptyString -> norm_stack true st = true ->
  Join d (render true st)
  = render (rooted d) (st ++ clean_elems (rooted d) (split d)).
Proof.
  intros Hd Hst. unfold Join.
  pose proof Hd as Hd'. apply String.eqb_neq in Hd'. rewrite Hd'.
  cbn [negb]. unfold Clean.
  assert (Hne : d ++ slash ++ render true st <> EmptyString)
    by (destruct d; [contradiction|discriminate]).
  apply String.eqb_neq in Hne. rewrite Hne.
  rewrite rooted_append by assumption. f_equal.
  unfold clean_elems. rewrite split_app_sep, fold_left_app.
  rewrite split_render by assumption.
  set (D := fold_left (clean_step (rooted d)) (split d) []).
  destruct st as [|x rest]; [reflexivity|].
  cbn [lead List.app fold_left]. rewrite clean_step_empty.
  rewrite fold_clean_names.
  - now rewrite rev_involutive.
  - apply Forall_rev. now apply norm_stack_rooted_names.
Qed.

Lemma Join_trivial d b :
  d <> EmptyString -> b = slash \/ b = dot -> Join d b = Clean d.
Proof.
  intros Hd Hb. unfold Join.
  pose proof Hd as Hd'. apply String.eqb_neq in Hd'. rewrite Hd'.
  cbn [negb]. unfold Clean. rewrite Hd'.
  assert (Hne : d ++ slash ++ b <> EmptyString)
    by (destruct d; [contradiction|discriminate]).
  apply String.eqb_neq in Hne. rewrite Hne.
  rewrite rooted_append by assumption. f_equal.
  unfold clean_elems. rewrite split_app_sep, fold_left_app.
  destruct Hb as [-> | ->]; reflexivity.
Qed.

Lemma starts_with_dotdot_names ns :
  ns <> [] -> Forall (fun n => valid_name n = true) ns ->
  starts_with_dotdot (join ns) = false.
Proof.
  intros Hne Hv. unfold starts_with_dotdot.
  rewrite split_join.
  - destruct ns as [|n ns']; [contradiction|].
    inversion Hv as [|? ? Hn _]; subst.
    apply valid_name_spec in Hn. destruct Hn as (_ & _ & H3 & _).
    now apply String.eqb_neq.
  - exact Hne.
  - rewrite List.Forall_forall in *. intros x Hx.
    now apply valid_name_no_sep, Hv.
Qed.

End JoinFacts.

Section NamingClaims.
Import filepath PathSpec PathFacts JoinFacts.

(** X1.  A URL path that begins with a slash cannot leave the served
    directory: [Clean] drops every [..] that would climb above the leading
    slash, and [Join] puts what is left below the directory. *)
Theorem rooted_url_stays_within :
  forall d url : string,
    d <> EmptyString -> rooted url = true ->
    within d (Join d (Clean url)) = true
    /\ has_dotdot (Clean url) = false.
Proof.
  intros d url Hd Hr.
  destruct (Clean_normal url) as (st & Hst & E). rewrite Hr in *.
  destruct (Clean_def d Hd) as [Ed HD].
  set (D := clean_elems (rooted d) (split d)) in *.
  rewrite E, Join_rooted by assumption. fold D.
  pose proof (norm_stack_rooted_names st Hst) as Hv.
  split.
  - unfold within. destruct st as [|x rest].
    + cbn [List.app].
      rewrite (Rel_same d (render (rooted d) D))
        by (rewrite Clean_render by assumption; exact Ed).
      reflexivity.
    + assert (Hn2 : norm_stack (rooted d) ((x :: rest) ++ D) = true)
        by (apply norm_stack_names; assumption).
      rewrite (Rel_descend d _ (rooted d) D (rev (x :: rest))).
      * rewrite starts_with_dotdot_names; [reflexivity| |].
        { apply rev_nonempty. discriminate. }
        { now apply Forall_rev. }
      * exact HD.
      * exact Ed.
      * rewrite rev_involutive. now apply Clean_render.
      * apply rev_nonempty. discriminate.
      * now apply Forall_rev.
  - unfold has_dotdot. rewrite split_render by assumption.
    assert (Hnd : forall l, Forall (fun n => valid_name n = true) l ->
                    existsb (String.eqb dotdot) l = false).
    { induction 1 as [|n l Hn _ IH]; [reflexivity|].
      cbn [existsb]. rewrite IH, orb_false_r.
      apply valid_name_spec in Hn. destruct Hn as (_ & _ & H3 & _).
      apply String.eqb_neq. congruence. }
    destruct st as [|x rest]; [reflexivity|].
    cbn [lead List.app existsb]. change (String.eqb dotdot EmptyString)
      with false. cbn [orb]. apply Hnd. now apply Forall_rev.
Qed.

Lemma rooted_url_stays_within_witness :
  within "/srv/www" (Join "/srv/www" (Clean "/../../etc/passwd")) = true.
Proof.
  apply (rooted_url_stays_within "/srv/www" "/../../etc/passwd");
    [discriminate|reflexivity].
Defined.

Lemma dirname_name r st n :
  norm_stack r st = true -> valid_name n = true ->
  Extended.dirname (render r (n :: st)) = n.
Proof.
  intros Hst Hv. unfold Extended.dirname.
  rewrite Base_render_name by assumption.
  apply valid_name_spec in Hv. destruct Hv as (_ & H2 & _ & H4).
  apply String.eqb_neq in H2. unfold dot in H2. rewrite H2.
  destruct (String.eqb n "/") eqn:E; [|reflexivity].
  apply String.eqb_eq in E. subst n. discriminate H4.
Qed.

Lemma Clean_slash_name n :
  valid_name n = true -> Clean (slash ++ n) = render true [n].
Proof.
  intros Hv. change (slash ++ n) with (String "/"%char n).
  unfold Clean. cbn [String.eqb rooted].
  change (is_sep "/"%char) with true. cbv iota. f_equal.
  unfold clean_elems. cbn [split].
  change (is_sep "/"%char) with true. cbv iota.
  rewrite split_no_sep by now apply valid_name_no_sep.
  cbn [fold_left]. rewrite clean_step_empty.
  now apply clean_step_name.
Qed.

(** C4, as the code has it.  A POST whose form parses sets
    [Content-Disposition] to [attachment; filename="N.zip"], and the
    response carries it, where [N] is the last element of the joined path
    of the served directory and the URL path, or [root] when that element
    is [.] or [/].  So a POST to [/name] suggests [name.zip] whatever the
    served directory is, and a POST to [/] or [.] suggests [root.zip] when
    the served directory itself cleans to [.] or [/] (or is empty). *)
Theorem content_disposition_filename :
  forall (sys : OS) (a : app) (r : Request) (names : list string)
         (broken : bool) (fuel : nat) (w' : ResponseWriter),
    Method r = MethodPost ->
    Form_files r = Ok names ->
    Extended.handler fuel sys a (newResponse broken) r = Some w' ->
    let d := Join (dir a) (Clean (URL_Path r)) in
    sent_header w' !! "Content-Disposition"
      = Some ("attachment; filename=" ++ dq ++ Extended.dirname d
              ++ ".zip" ++ dq)
    /\ (Base d = "." \/ Base d = "/" -> Extended.dirname d = "root")
    /\ (Base d <> "." -> Base d <> "/" -> Extended.dirname d = Base d)
    /\ (forall n, valid_name n = true -> URL_Path r = "/" ++ n ->
                  Extended.dirname d = n)
    /\ (URL_Path r = "/" \/ URL_Path r = "." ->
        dir a = EmptyString \/ Clean (dir a) = "." \/ Clean (dir a) = "/" ->
        Extended.dirname d = "root").
Proof.
  intros sys a r names broken fuel w' Hm Hf Hh d.
  split; [|split; [|split; [|split]]].
  - apply carries_sent.
    unfold Extended.handler, Extended.handlePost in Hh.
    rewrite Hm, Hf in Hh.
    change (String.eqb MethodPost MethodGet) with false in Hh.
    rewrite String.eqb_refl in Hh. cbv iota in Hh.
    fold d in Hh. unfold Extended.content_disposition in Hh.
    set (v := "attachment; filename=" ++ dq ++ Extended.dirname d
              ++ ".zip" ++ dq) in *.
    set (w1 := Header_Set "Content-Disposition" v _) in Hh.
    assert (H1 : carries "Content-Disposition" v w1)
      by (apply carries_Header_Set_same; reflexivity).
    destruct (Extended.archive fuel sys w1 d names)
      as [[zw [e|]]|] eqn:Ea; try discriminate;
      injection Hh as <-;
      pose proof (carries_archive _ _ _ _ _ _ _ _ _ H1 Ea) as H2.
    + apply carries_http_Error; auto; discriminate.
    + exact H2.
  - unfold Extended.dirname. intros [-> | ->]; reflexivity.
  - unfold Extended.dirname. intros H1 H2.
    apply String.eqb_neq in H1, H2. now rewrite H1, H2.
  - intros n Hv Hu. subst d. rewrite Hu.
    change ("/" ++ n) with (slash ++ n).
    rewrite Clean_slash_name by assumption.
    destruct (String.eqb (dir a) EmptyString) eqn:Ed.
    + apply String.eqb_eq in Ed. rewrite Ed. unfold Join.
      cbn [String.eqb negb].
      pose proof (render_nonempty true [n]) as Hne.
      assert (Hn1 : norm_stack true [n] = true)
        by (apply (norm_stack_names true [n] []); auto).
      specialize (Hne Hn1). apply String.eqb_neq in Hne. rewrite Hne.
      cbn [negb]. rewrite Clean_render by assumption.
      now apply dirname_name.
    + apply String.eqb_neq in Ed.
      assert (Hn1 : norm_stack true [n] = true)
        by (apply (norm_stack_names true [n] []); auto).
      rewrite Join_rooted by assumption. cbn [List.app].
      apply dirname_name; [|assumption].
      now destruct (Clean_def (dir a) Ed).
  - intros Hu Hdir. subst d.
    assert (Hc : Clean (URL_Path r) = slash \/ Clean (URL_Path r) = dot)
      by (destruct Hu as [-> | ->]; [left|right]; reflexivity).
    destruct (String.eqb (dir a) EmptyString) eqn:Ed.
    + apply String.eqb_eq in Ed. rewrite Ed.
      destruct Hc as [-> | ->]; reflexivity.
    + apply String.eqb_neq in Ed.
      rewrite Join_trivial by assumption.
      destruct Hdir as [E | [-> | ->]]; [contradiction| |]; reflexivity.
Qed.

Lemma content_disposition_filename_witness :
  exists w',
    Extended.handler 6 Sample.sys Sample.abs (newResponse false)
      (Sample.POST "/sub" []) = Some w'
    /\ sent_header w' !! "Content-Disposition"
       = Some ("attachment; filename=" ++ dq ++ "sub.zip" ++ dq).
Proof.
  destruct (Extended.handler 6 Sample.sys Sample.abs (newResponse false)
              (Sample.POST "/sub" [])) as [w'|] eqn:E;
    [|vm_compute in E; discriminate].
  exists w'. split; [reflexivity|].
  pose proof (content_disposition_filename Sample.sys Sample.abs
                (Sample.POST "/sub" []) [] false 6 w'
                eq_refl eq_refl E) as H.
  cbv zeta in H. destruct H as (H1 & _ & _ & H4 & _).
  rewrite H1, (H4 "sub" eq_refl eq_refl). reflexivity.
Defined.

(** C4, the claim as it stands fails: when [/srv/www] is served, a POST to
    [/] suggests [www.zip], not [root.zip]. *)
Lemma content_disposition_filename_counterexample :
  exists w',
    Extended.handler 6 Sample.sys Sample.abs (newResponse false)
      (Sample.POST "/" []) = Some w'
    /\ sent_header w' !! "Content-Disposition"
       = Some ("attachment; filename=" ++ dq ++ "www.zip" ++ dq)
    /\ sent_header w' !! "Content-Disposition"
       <> Some ("attachment; filename=" ++ dq ++ "root.zip" ++ dq).
Proof.
  eexists. split; [vm_compute; reflexivity|].
  split; [vm_compute; reflexivity|].
  vm_compute. discriminate.
Qed.

End NamingClaims.

(* ===================================================================== *)
(** * Further properties of the handlers *)
(* ===================================================================== *)

Module StatusFacts.

Lemma status_io_Copy write src w :
  (forall d w0, status (fst (write d w0)) = status w0) ->
  status (fst (io_Copy write src w)) = status w.
Proof.
  intros Hwr. unfold io_Copy.
  destruct (String.eqb (fst src) EmptyString); [reflexivity|].
  specialize (Hwr (fst src) w).
  destruct (write (fst src) w) as [w' [e|]]; exact Hwr.
Qed.

Lemma status_for_range {A}
    (body : ResponseWriter -> A -> option (ResponseWriter * option error)) :
  (forall zw x zw' e, body zw x = Some (zw', e) -> status zw' = status zw) ->
  forall l zw zw' e,
    Extended.for_range body l zw = Some (zw', e) -> status zw' = status zw.
Proof.
  intros Hb l. induction l as [|x rest IH]; intros zw zw' e E.
  - now inversion E.
  - cbn [Extended.for_range] in E.
    destruct (body zw x) as [[zw1 [e1|]]|] eqn:Eb; try discriminate.
    + inversion E; subst. eapply Hb; eauto.
    + rewrite (IH _ _ _ E). eapply Hb; eauto.
Qed.

Lemma status_addToArchive sys d : forall fuel zw path zw' e,
  Extended.addToArchive fuel sys zw d path = Some (zw', e) ->
  status zw' = status zw.
Proof.
  induction fuel as [|fuel IH]; intros zw path zw' e E;
    cbn [Extended.addToArchive] in E; [discriminate|].
  destruct (filepath.Rel d path) as [rel|]; [|now inversion E].
  destruct (os_Open sys path) as [f|e0]; [|now inversion E].
  destruct (f_Stat sys f) as [fi|e0]; [|now inversion E].
  destruct (fi_IsDir fi).
  - destruct (ReadDir sys path) as [fis|e0]; [|now inversion E].
    eapply status_for_range; [|exact E].
    intros zw0 x zw1 e1 E0. eapply IH; exact E0.
  - unfold zip_Create in E.
    pose proof (status_Write (ZipHeader rel) zw) as H1.
    destruct (Write (ZipHeader rel) zw) as [zw1 [e1|]]; cbn [fst] in H1.
    + now inversion E; subst.
    + inversion E as [E'].
      pose proof (status_io_Copy zip_Write (f_ReadAll sys f) zw1) as H2.
      rewrite E' in H2. cbn [fst] in H2. rewrite H2; [exact H1|].
      intros d0 w0. apply status_Write.
Qed.

Lemma wrote_Write c w : w_wrote (fst (Write c w)) <> None.
Proof.
  unfold Write. pose proof (wrote_WriteHeader w StatusOK) as H.
  destruct (w_broken (WriteHeader StatusOK w)); exact H.
Qed.

(** [archive] leaves the status as it found it, and the status line has
    gone out when it returns: the deferred [Close] writes. *)
Lemma archive_status fuel sys w d names zw' e :
  Extended.archive fuel sys w d names = Some (zw', e) ->
  status zw' = status w /\ w_wrote zw' <> None.
Proof.
  intros E. unfold Extended.archive in E.
  set (first := match names with
                | [] => Extended.addToArchive fuel sys w d d
                | _ => Some (w, None)
                end) in E.
  assert (Hfirst : forall zw1 e1, first = Some (zw1, e1) ->
                     status zw1 = status w).
  { intros zw1 e1 E1. subst first. destruct names.
    - eapply status_addToArchive; exact E1.
    - now inversion E1. }
  destruct first as [[zw1 [e1|]]|]; try discriminate.
  - inversion E; subst. split; [|apply wrote_Write].
    unfold zip_Close. rewrite status_Write. eapply Hfirst; reflexivity.
  - destruct (Extended.for_range _ names zw1) as [[zw2 e2]|] eqn:E2;
      try discriminate.
    inversion E; subst. split; [|apply wrote_Write].
    unfold zip_Close. rewrite status_Write.
    rewrite (status_for_range _
               (fun zw0 x zw3 e3 E0 =>
                  status_addToArchive sys d fuel zw0 _ zw3 e3 E0)
               _ _ _ _ E2).
    eapply Hfirst; reflexivity.
Qed.

Lemma status_http_Error_late w msg code :
  w_wrote w <> None -> status (http_Error w msg code) = status w.
Proof.
  intros H. unfold http_Error. rewrite status_Write.
  unfold WriteHeader, Header_Set, Header_Del, status. cbn.
  destruct (w_wrote w) as [[c h]|]; [reflexivity|contradiction].
Qed.

End StatusFacts.

Section PostStatus.
Import StatusFacts.

(** X5.  A POST whose form parses is answered with status 200 whatever
    happens while the archive is built: [archive] closes the zip writer
    before it returns, so the status line has gone out when the handler
    calls [http.Error], whose 500 then comes too late. *)
Theorem post_archive_status_ok :
  forall (sys : OS) (a : app) (r : Request) (names : list string)
         (broken : bool) (fuel : nat) (w' : ResponseWriter),
    Method r = MethodPost ->
    Form_files r = Ok names ->
    Extended.handler fuel sys a (newResponse broken) r = Some w' ->
    status w' = StatusOK.
Proof.
  intros sys a r names broken fuel w' Hm Hf Hh.
  unfold Extended.handler, Extended.handlePost in Hh.
  rewrite Hm, Hf in Hh.
  change (String.eqb MethodPost MethodGet) with false in Hh.
  rewrite String.eqb_refl in Hh. cbv iota in Hh.
  destruct (Extended.archive fuel sys _ _ names) as [[zw [e|]]|] eqn:Ea;
    try discriminate; injection Hh as <-;
    destruct (archive_status _ _ _ _ _ _ _ Ea) as [Hs Hw].
  - rewrite status_http_Error_late by assumption. rewrite Hs. reflexivity.
  - rewrite Hs. reflexivity.
Qed.

Lemma post_archive_status_ok_witness :
  exists w',
    Extended.handler 6 Sample.sys (mkApp EmptyString false EmptyString)
      (newResponse false) (Sample.POST "/asdf" []) = Some w'
    /\ status w' = StatusOK.
Proof.
  destruct (Extended.handler 6 Sample.sys
              (mkApp EmptyString false EmptyString)
              (newResponse false) (Sample.POST "/asdf" [])) as [w'|] eqn:E;
    [|vm_compute in E; discriminate].
  exists w'. split; [reflexivity|].
  exact (post_archive_status_ok Sample.sys
           (mkApp EmptyString false EmptyString) (Sample.POST "/asdf" [])
           [] false 6 w' eq_refl eq_refl E).
Defined.

(** X6.  A POST whose form does not parse is answered with status 500 and the
    text of the error; no archive is begun and no [Content-Disposition] is
    set. *)
Theorem post_form_error :
  forall (sys : OS) (a : app) (r : Request) (e : error) (fuel : nat),
    Method r = MethodPost ->
    Form_files r = Err e ->
    exists w',
      Extended.handler fuel sys a (newResponse false) r = Some w'
      /\ status w' = StatusInternalServerError
      /\ w_body w' = [Bytes ("Error: " ++ e ++ newline)]
      /\ sent_header w' !! "Content-Disposition" = None.
Proof.
  intros sys a r e fuel Hm Hf.
  unfold Extended.handler, Extended.handlePost. rewrite Hm, Hf.
  change (String.eqb MethodPost MethodGet) with false.
  rewrite String.eqb_refl. cbv iota.
  eexists. split; [reflexivity|]. repeat split.
Qed.

Lemma post_form_error_witness :
  exists w',
    Extended.handler 0 Sample.sys Sample.here (newResponse false)
      (mkRequest MethodPost "/" (Err "invalid URL escape")) = Some w'
    /\ status w' = StatusInternalServerError.
Proof.
  destruct (post_form_error Sample.sys Sample.here
              (mkRequest MethodPost "/" (Err "invalid URL escape"))
              "invalid URL escape" 0 eq_refl eq_refl)
    as (w' & H1 & H2 & _).
  exists w'. split; assumption.
Defined.

End PostStatus.

Section NameOfArchive.
Import filepath PathSpec PathFacts.

(** X10.  The name [dirname] suggests for the archive is never empty and holds
    no slash: it is [root] or the last element of the path. *)
Theorem dirname_is_a_name :
  forall d : string,
    Extended.dirname d <> EmptyString /\ has_sep (Extended.dirname d) = false.
Proof.
  intros d. unfold Extended.dirname, Base.
  destruct (String.eqb d EmptyString); [split; [discriminate|reflexivity]|].
  set (e := List.last (split (strip_trailing d)) EmptyString).
  assert (He : has_sep e = false).
  { subst e. apply (last_Forall (fun x => has_sep x = false));
      [apply split_nonempty|apply split_elems_no_sep]. }
  destruct (String.eqb e EmptyString) eqn:E0;
    [split; [discriminate|reflexivity]|].
  apply String.eqb_neq in E0.
  destruct (String.eqb e "." || String.eqb e "/");
    [split; [discriminate|reflexivity]|].
  split; assumption.
Qed.



End NameOfArchive.

Module TreeGet.
Import Tree TreeSpec filepath PathSpec PathFacts TreeFacts ArchiveFacts
       JoinFacts ListingFacts.

Lemma node_at_app_path : forall loc root n p,
  node_at root loc = Some n -> node_at root (loc ++ p) = node_at n p.
Proof.
  induction loc as [|x r IH]; intros root n p H.
  - injection H as ->. reflexivity.
  - rewrite <- app_comm_cons. cbn [node_at] in *.
    destruct root as [|t es]; [discriminate|].
    destruct (lookup_child es x) as [c|]; [|discriminate].
    now apply IH.
Qed.

Lemma node_at_prefix : forall loc root p m,
  node_at root (loc ++ p) = Some m ->
  exists n, node_at root loc = Some n /\ node_at n p = Some m.
Proof.
  induction loc as [|x r IH]; intros root p m H.
  - exists root. split; [reflexivity|exact H].
  - rewrite <- app_comm_cons in H. cbn [node_at] in *.
    destruct root as [|t es]; [discriminate|].
    destruct (lookup_child es x) as [c|]; [|discriminate].
    now apply IH.
Qed.

Lemma path_names_valid : forall p n m,
  wf n = true -> node_at n p = Some m ->
  Forall (fun k => valid_name k = true) p.
Proof.
  induction p as [|k rest IH]; intros n m Hwf H; [constructor|].
  cbn [node_at] in H. destruct n as [|t es]; [discriminate|].
  destruct (lookup_child es k) as [c|] eqn:Ec; [|discriminate].
  apply lookup_child_Some_In in Ec.
  destruct (wf_child t es k c Hwf Ec) as (Hv & Hwc & _).
  constructor; [exact Hv|]. eapply IH; eauto.
Qed.

(** Going down from a resolved directory along names of the tree. *)
Lemma resolve_descend root cwd r : forall p st loc n m,
  wf n = true -> norm_stack r st = true ->
  resolve root cwd (render r st) = Some loc ->
  node_at root loc = Some n -> node_at n p = Some m ->
  resolve root cwd (render r (rev p ++ st)) = Some (loc ++ p)%list.
Proof.
  induction p as [|k rest IH]; intros st loc n m Hwf Hst Hres Hn Hp.
  - cbn [rev List.app]. now rewrite app_nil_r.
  - cbn [node_at] in Hp. destruct n as [|t es]; [discriminate|].
    destruct (lookup_child es k) as [c|] eqn:Ec; [|discriminate].
    pose proof (lookup_child_Some_In _ _ _ Ec) as Hin.
    destruct (wf_child t es k c Hwf Hin) as (Hv & Hwc & _).
    cbn [rev]. rewrite <- app_assoc. cbn [List.app].
    replace (loc ++ k :: rest)%list with ((loc ++ [k]) ++ rest)%list
      by (now rewrite <- app_assoc).
    apply (IH (k :: st) (loc ++ [k])%list c m); auto.
    + apply (norm_stack_names r [k] st); auto.
    + eapply resolve_child; eauto.
    + rewrite (node_at_app root loc (Dir t es) k Hn). exact Ec.
Qed.

Lemma url_of_names names :
  Forall (fun k => valid_name k = true) names ->
  "/" ++ join names = render true (rev names)
  /\ norm_stack true (rev names) = true.
Proof.
  intros Hv. split.
  - unfold render. now rewrite rev_involutive.
  - rewrite <- (app_nil_r (rev names)).
    apply norm_stack_names; [now apply Forall_rev|reflexivity].
Qed.

(** The path a request for [/n1/.../nk] resolves to, and where it lies
    in the tree when the served directory lies at [loc]. *)
Lemma resolve_url root cwd (a : app) url names loc m :
  wf root = true -> dir a <> EmptyString ->
  url = "/" ++ join names ->
  resolve root cwd (Clean (dir a)) = Some loc ->
  node_at root (loc ++ names) = Some m ->
  Clean url = url /\
  lookup root cwd (Join (dir a) (Clean url)) = Some m.
Proof.
  intros Hwf Hd Hu Hres Hm.
  destruct (node_at_prefix loc root names m Hm) as (n & Hn & Hp).
  destruct (wf_node_at root loc n Hwf Hn) as [Hwn _].
  pose proof (path_names_valid names n m Hwn Hp) as Hv.
  destruct (url_of_names names Hv) as [Eu Hnu].
  destruct (Clean_def (dir a) Hd) as [Ed HD].
  rewrite Hu, Eu. rewrite Clean_render by assumption.
  split; [reflexivity|].
  rewrite Join_rooted by assumption. unfold lookup.
  rewrite Ed in Hres.
  rewrite (resolve_descend root cwd (rooted (dir a)) names _ loc n m);
    auto.
Qed.

Lemma body_text_write_all ps w :
  w_broken w = false -> w_body w = [] ->
  body_text (w_body (fst (write_all ps w))) = concat_str ps.
Proof.
  intros Hw Hb. destruct (write_all_healthy ps w Hw) as (_ & _ & H).
  rewrite H, Hb. reflexivity.
Qed.

End TreeGet.

Section TreeGetClaims.
Import Tree TreeSpec filepath PathSpec PathFacts TreeFacts TreeGet
       ListingFacts.

(** X2.  A GET for a regular file below the served directory of a well-formed
    tree is answered, in both variants, with status 200 and a body that is
    the content of the file, byte for byte. *)
Theorem get_serves_file :
  forall (root : node) (cwd : list string) (a : app) (r : Request)
         (names loc : list string) (data : string) (mt : Fmt.Time),
    wf root = true -> dir a <> EmptyString ->
    Method r = MethodGet ->
    URL_Path r = "/" ++ join names ->
    resolve root cwd (Clean (dir a)) = Some loc ->
    node_at root (loc ++ names) = Some (File data mt) ->
    (let w := Basic.handler (Tree.os root cwd) a (newResponse false) r in
     status w = StatusOK /\ body_text (w_body w) = data)
    /\ forall fuel,
         option_map (fun w => (status w, body_text (w_body w)))
           (Extended.handler fuel (Tree.os root cwd) a (newResponse false) r)
         = Some (StatusOK, data).
Proof.
  intros root cwd a r names loc data mt Hwf Hd Hm Hu Hres Hnode.
  destruct (resolve_url root cwd a (URL_Path r) names loc _
              Hwf Hd Hu Hres Hnode) as [_ Hl].
  assert (Hg : forall tpl w, w_broken w = false -> w_body w = [] ->
            exists w1, handleGet tpl (Tree.os root cwd) a w r = (w1, None)
                       /\ status w1 = status w
                       /\ body_text (w_body w1) = data).
  { intros tpl w Hw Hb. unfold handleGet.
    cbn [os_Open f_Stat f_ReadAll Tree.os]. rewrite Hl.
    cbn [fst snd info fi_IsDir]. unfold io_Copy. cbn [fst snd].
    destruct (String.eqb data EmptyString) eqn:Ee.
    - apply String.eqb_eq in Ee. subst data.
      exists w. rewrite Hb. auto.
    - rewrite (Write_healthy_eq (Bytes data) w Hw).
      eexists. split; [reflexivity|]. split; [apply status_Write|].
      rewrite Write_body, Hb by assumption.
      cbn [List.app body_text]. apply append_nil_r. }
  split.
  - cbv zeta. unfold Basic.handler. rewrite Hm.
    change (String.eqb MethodGet MethodGet) with true. cbv iota.
    destruct (Hg Basic.listTemplate
                (Header_Set "Cache-Control" "no-store" (newResponse false))
                eq_refl eq_refl) as (w1 & E & Hs & Hb).
    rewrite E. split; [exact Hs|exact Hb].
  - intros fuel. unfold Extended.handler. rewrite Hm.
    change (String.eqb MethodGet MethodGet) with true. cbv iota.
    destruct (Hg Extended.listTemplate
                (Header_Set "Cache-Control" "no-store" (newResponse false))
                eq_refl eq_refl) as (w1 & E & Hs & Hb).
    rewrite E. cbn [option_map]. now rewrite Hs, Hb.
Qed.

Lemma get_serves_file_witness :
  body_text
    (w_body (Basic.handler Sample.sys Sample.abs (newResponse false)
               (Sample.GET "/sub/x"))) = "xx".
Proof.
  exact (proj2 (proj1 (get_serves_file Sample.root Sample.cwd Sample.abs
                         (Sample.GET "/sub/x") ["sub"; "x"] ["srv"; "www"]
                         "xx" Sample.t0 eq_refl ltac:(discriminate)
                         eq_refl eq_refl eq_refl eq_refl))).
Defined.

(** X3.  A GET for a directory below the served directory of a well-formed
    tree is answered with status 200 and the listing page of exactly the
    entries of that directory, titled with the URL path; the page holds,
    for each entry, the anchor that links to the URL path joined with the
    name of the entry. *)
Theorem get_lists_directory :
  forall (root : node) (cwd : list string) (a : app) (r : Request)
         (names loc : list string) (t : Fmt.Time)
         (es : list (string * node)),
    wf root = true -> dir a <> EmptyString ->
    Method r = MethodGet ->
    URL_Path r = "/" ++ join names ->
    resolve root cwd (Clean (dir a)) = Some loc ->
    node_at root (loc ++ names) = Some (Dir t es) ->
    let files := map (fun e => info (fst e) (snd e)) es in
    let w := Basic.handler (Tree.os root cwd) a (newResponse false) r in
    status w = StatusOK
    /\ body_text (w_body w)
       = listing_text Basic.listTemplate (URL_Path r) files
    /\ (forall fuel,
          option_map (fun w => (status w, body_text (w_body w)))
            (Extended.handler fuel (Tree.os root cwd) a (newResponse false)
               r)
          = Some (StatusOK,
                  listing_text Extended.listTemplate (URL_Path r) files))
    /\ forall k c, In (k, c) es ->
         contains
           ("<a href=" ++ dq ++ Join (URL_Path r) k ++ dq ++ ">" ++ k
            ++ "</a>")
           (body_text (w_body w)).
Proof.
  intros root cwd a r names loc t es Hwf Hd Hm Hu Hres Hnode files w.
  destruct (resolve_url root cwd a (URL_Path r) names loc _
              Hwf Hd Hu Hres Hnode) as [Hc Hl].
  assert (Hld : lists_directory (Tree.os root cwd) a r files).
  { unfold lists_directory. cbn [os_Open f_Stat ReadDir Tree.os].
    rewrite Hl. eexists. eexists. repeat split. }
  assert (Hg : forall tpl,
            fst (handleGet tpl (Tree.os root cwd) a
                   (Header_Set "Cache-Control" "no-store"
                      (newResponse false)) r)
            = fst (serveDir tpl
                     (Header_Set "Cache-Control" "no-store"
                        (newResponse false)) (URL_Path r) files)
            /\ snd (handleGet tpl (Tree.os root cwd) a
                      (Header_Set "Cache-Control" "no-store"
                         (newResponse false)) r) = None).
  { intros tpl. rewrite (handleGet_directory tpl _ a _ r files Hld).
    rewrite Hc. split; reflexivity. }
  assert (Htext : forall tpl,
            body_text
              (w_body (fst (serveDir tpl
                              (Header_Set "Cache-Control" "no-store"
                                 (newResponse false)) (URL_Path r) files)))
            = listing_text tpl (URL_Path r) files).
  { intros tpl. rewrite listing_text_exec. unfold serveDir, Execute.
    apply body_text_write_all; reflexivity. }
  assert (Hw : w = fst (serveDir Basic.listTemplate
                          (Header_Set "Cache-Control" "no-store"
                             (newResponse false)) (URL_Path r) files)).
  { subst w. unfold Basic.handler. rewrite Hm.
    change (String.eqb MethodGet MethodGet) with true. cbv iota.
    destruct (Hg Basic.listTemplate) as [E1 E2].
    destruct (handleGet Basic.listTemplate _ a _ r) as [w1 e1].
    cbn [fst snd] in *. now subst. }
  clearbody w. subst w.
  split; [|split; [|split]].
  - rewrite serveDir_status. reflexivity.
  - apply Htext.
  - intros fuel. unfold Extended.handler. rewrite Hm.
    change (String.eqb MethodGet MethodGet) with true. cbv iota.
    destruct (Hg Extended.listTemplate) as [E1 E2].
    destruct (handleGet Extended.listTemplate _ a _ r) as [w1 e1].
    cbn [fst snd] in *. subst. cbn [option_map].
    now rewrite serveDir_status, Htext.
  - intros k c Hin. rewrite Htext, listing_text_Basic.
    do 5 apply contains_app_l. apply contains_app_r.
    apply (contains_trans _
             (row_text Basic.listTemplate (URL_Path r) (info k c))).
    + pose proof (Basic_row_anchor (URL_Path r) (info k c)) as H.
      unfold anchor in H. rewrite ArchiveFacts.info_Name in H. exact H.
    + apply contains_concat_str. apply in_map.
      subst files. apply in_map_iff. now exists (k, c).
Qed.

Lemma get_lists_directory_witness :
  status (Basic.handler Sample.sys Sample.abs (newResponse false)
            (Sample.GET "/sub")) = StatusOK.
Proof.
  exact (proj1 (get_lists_directory Sample.root Sample.cwd Sample.abs
                  (Sample.GET "/sub") ["sub"] ["srv"; "www"] Sample.t0 _
                  eq_refl ltac:(discriminate) eq_refl eq_refl eq_refl
                  eq_refl)).
Defined.

End TreeGetClaims.

Module ArchiveEdge.
Import Tree TreeSpec filepath PathSpec PathFacts TreeFacts ArchiveFacts
       JoinFacts.

Lemma resolve_step root cwd r st n loc t es :
  norm_stack r st = true -> valid_name n = true ->
  resolve root cwd (render r st) = Some loc ->
  node_at root loc = Some (Dir t es) ->
  resolve root cwd (render r (n :: st)) = walk_step root (Some loc) n.
Proof.
  intros Hn Hv Hres Hnode.
  assert (Hn2 : norm_stack r (n :: st) = true)
    by (apply (norm_stack_names r [n] st); auto).
  unfold resolve in *.
  pose proof (render_nonempty r st Hn) as Hne.
  pose proof (render_nonempty r (n :: st) Hn2) as Hne2.
  apply String.eqb_neq in Hne, Hne2. rewrite Hne in Hres. rewrite Hne2.
  rewrite rooted_render in * by assumption.
  rewrite split_render in * by assumption.
  cbn [rev]. rewrite app_assoc, fold_left_app. cbn [fold_left].
  destruct st as [|x rest].
  - cbn [rev List.app]. rewrite app_nil_r.
    destruct r; cbn [lead fold_left] in *.
    + rewrite !walk_step_stay in Hres by auto.
      rewrite walk_step_stay by auto.
      cbn [node_at] in *.
      destruct root as [|t0 es0]; [discriminate|].
      injection Hres as <-. reflexivity.
    + rewrite walk_step_stay in Hres by auto.
      destruct (node_at root cwd) as [[|t0 es0]|] eqn:Ecwd;
        try discriminate.
      injection Hres as <-. reflexivity.
  - rewrite Hres. reflexivity.
Qed.

Lemma walk_step_missing root loc t es n :
  node_at root loc = Some (Dir t es) -> valid_name n = true ->
  lookup_child es n = None ->
  walk_step root (Some loc) n = None.
Proof.
  intros Hn Hv Hc. unfold walk_step. rewrite Hn.
  apply valid_name_spec in Hv. destruct Hv as (H1 & H2 & H3 & _).
  apply String.eqb_neq in H1, H2, H3. rewrite H1, H2, H3, Hc. reflexivity.
Qed.

(** A selected name the directory does not hold: the path is built, and
    [os.Open] fails on it. *)
Lemma addToArchive_missing root cwd r st loc t es nm fuel zw :
  norm_stack r st = true -> valid_name nm = true ->
  resolve root cwd (render r st) = Some loc ->
  node_at root loc = Some (Dir t es) ->
  lookup_child es nm = None ->
  Extended.addToArchive (S fuel) (Tree.os root cwd) zw (render r st)
    (Join (render r st) nm)
  = Some (zw, Some (ENOENT "open" (Join (render r st) nm))).
Proof.
  intros Hst Hv Hres Hnode Hc.
  rewrite Join_render_name by assumption.
  cbn [Extended.addToArchive].
  assert (Hn1 : norm_stack r (nm :: st) = true)
    by (apply (norm_stack_names r [nm] st); auto).
  rewrite (Rel_descend (render r st) (render r (nm :: st)) r st [nm]);
    auto; try (now apply Clean_render); try discriminate.
  cbn [os_Open Tree.os]. unfold lookup.
  rewrite (resolve_step root cwd r st nm loc t es); auto.
  rewrite (walk_step_missing root loc t es nm); auto.
Qed.

Lemma addToArchive_entry root cwd r st loc t es nm c fuel zw :
  norm_stack r st = true ->
  resolve root cwd (render r st) = Some loc ->
  node_at root loc = Some (Dir t es) ->
  wf (Dir t es) = true -> height (Dir t es) < fuel ->
  w_broken zw = false ->
  In (nm, c) es ->
  Extended.addToArchive fuel (Tree.os root cwd) zw (render r st)
    (Join (render r st) nm)
  = Some (write_chunks (flat_map zip_entry (files_under [nm] c)) zw, None).
Proof.
  intros Hst Hres Hnode Hwf Hh Hw Hin.
  destruct (wf_child t es nm c Hwf Hin) as (Hv & Hwc & Hhc).
  assert (Hc : lookup_child es nm = Some c).
  { apply lookup_child_In; [|assumption].
    cbn [wf] in Hwf. now apply andb_true_iff in Hwf. }
  rewrite Join_render_name by assumption.
  apply (addToArchive_tree root cwd r st Hst fuel [nm]
           (loc ++ [nm])%list c zw).
  - constructor; auto.
  - cbn [rev List.app]. eapply resolve_child; eauto.
  - rewrite (node_at_app root loc (Dir t es) nm Hnode). exact Hc.
  - exact Hwc.
  - lia.
  - exact Hw.
  - left. discriminate.
Qed.

Lemma for_range_fails_at {A}
    (body : ResponseWriter -> A -> option (ResponseWriter * option error))
    l1 x l2 : forall zw zw1 zw2 e,
  Extended.for_range body l1 zw = Some (zw1, None) ->
  body zw1 x = Some (zw2, Some e) ->
  Extended.for_range body (l1 ++ x :: l2) zw = Some (zw2, Some e).
Proof.
  induction l1 as [|y l1 IH]; intros zw zw1 zw2 e H1 H2.
  - injection H1 as ->. cbn [List.app Extended.for_range]. now rewrite H2.
  - rewrite <- app_comm_cons. cbn [Extended.for_range] in *.
    destruct (body zw y) as [[zw' [e'|]]|]; try discriminate.
    eapply IH; eauto.
Qed.

Lemma http_Error_body w msg code :
  w_broken w = false ->
  w_body (http_Error w msg code)
  = (w_body w ++ [Bytes (msg ++ newline)])%list.
Proof.
  intros Hw. unfold http_Error. rewrite Write_body.
  - unfold WriteHeader. destruct (w_wrote _); reflexivity.
  - unfold WriteHeader. destruct (w_wrote _); exact Hw.
Qed.

Lemma for_range_total {A}
    (body : ResponseWriter -> A -> option (ResponseWriter * option error))
    l :
  (forall zw x, In x l -> exists res, body zw x = Some res) ->
  forall zw, exists res, Extended.for_range body l zw = Some res.
Proof.
  induction l as [|x rest IH]; intros Hb zw; [eexists; reflexivity|].
  cbn [Extended.for_range].
  destruct (Hb zw x (or_introl eq_refl)) as ([zw' [e|]] & E); rewrite E.
  - eexists; reflexivity.
  - apply IH. intros zw0 y Hy. apply Hb. now right.
Qed.

(** [addToArchive] comes back on every cleaned path of a well-formed
    tree, given fuel above the height of the node the path leads to. *)
Lemma addToArchive_returns root cwd r d :
  wf root = true ->
  forall fuel st zw,
    0 < fuel -> norm_stack r st = true ->
    (forall loc n, resolve root cwd (render r st) = Some loc ->
                   node_at root loc = Some n -> height n < fuel) ->
    exists res,
      Extended.addToArchive fuel (Tree.os root cwd) zw d (render r st)
      = Some res.
Proof.
  intros Hwf. induction fuel as [|fuel IH]; intros st zw Hpos Hst Hh; [lia|].
  cbn [Extended.addToArchive].
  destruct (Rel d (render r st)) as [rel|]; [|eexists; reflexivity].
  cbn [os_Open f_Stat f_ReadAll ReadDir Tree.os]. unfold lookup.
  destruct (resolve root cwd (render r st)) as [loc|] eqn:Eres;
    [|eexists; reflexivity].
  destruct (node_at root loc) as [n|] eqn:En; [|eexists; reflexivity].
  cbn [fst snd]. rewrite info_IsDir.
  pose proof (Hh loc n eq_refl En) as Hhn.
  destruct (wf_node_at root loc n Hwf En) as [Hwn _].
  destruct n as [data mt | t es]; cbn [is_dir].
  - unfold zip_Create.
    destruct (Write (ZipHeader rel) zw) as [zw1 [e|]]; eexists; reflexivity.
  - rewrite for_range_map. apply for_range_total.
    intros zw0 [k c] Hin. cbn [fst snd]. rewrite info_Name.
    destruct (wf_child t es k c Hwn Hin) as (Hv & Hwc & Hhc).
    rewrite Join_render_name by assumption.
    assert (Hc : lookup_child es k = Some c).
    { apply lookup_child_In; [|assumption].
      cbn [wf] in Hwn. now apply andb_true_iff in Hwn. }
    apply IH.
    + cbn [height] in Hhn. lia.
    + apply (norm_stack_names r [k] st); auto.
    + intros loc' n' Hres' Hn'.
      rewrite (resolve_child root cwd r st k loc t es c) in Hres'; auto.
      injection Hres' as <-.
      rewrite (node_at_app root loc (Dir t es) k En), Hc in Hn'.
      injection Hn' as <-. lia.
Qed.

Lemma archive_returns root cwd r st names fuel w :
  wf root = true -> height root < fuel -> norm_stack r st = true ->
  exists res,
    Extended.archive fuel (Tree.os root cwd) w (render r st) names
    = Some res.
Proof.
  intros Hwf Hf Hst. unfold Extended.archive.
  assert (Hbound : forall st' loc n,
            resolve root cwd (render r st') = Some loc ->
            node_at root loc = Some n -> height n < fuel).
  { intros st' loc n _ Hn.
    destruct (wf_node_at root loc n Hwf Hn) as [_ Hle]. lia. }
  assert (Hcall : forall zw name, exists res,
            Extended.addToArchive fuel (Tree.os root cwd) zw (render r st)
              (Join (render r st) name) = Some res).
  { intros zw name. rewrite Join_render by assumption.
    apply addToArchive_returns; auto; [lia| |apply Hbound].
    apply fold_clean_norm; [apply split_elems_no_sep|assumption]. }
  destruct names as [|n0 ns0].
  - destruct (addToArchive_returns root cwd r (render r st) Hwf fuel st w)
      as ([zw [e|]] & E); auto; [lia|apply Hbound| |]; rewrite E;
      eexists; reflexivity.
  - destruct (for_range_total
                (fun zw name =>
                   Extended.addToArchive fuel (Tree.os root cwd) zw
                     (render r st) (Join (render r st) name))
                (n0 :: ns0) (fun zw x _ => Hcall zw x) w)
      as ([zw e] & E).
    rewrite E. eexists; reflexivity.
Qed.

End ArchiveEdge.

Section ArchiveEdgeClaims.
Import Tree TreeSpec filepath PathSpec PathFacts TreeFacts ArchiveFacts
       JoinFacts ArchiveEdge StatusFacts.

(** X7.  A selected name the directory does not hold ends the archive where
    it stands: the entries of the names before it are in the zip, the zip
    is closed, those after it are never looked at, and the text of the
    error follows the zip in the body, under status 200. *)
Theorem archive_stops_at_missing_name :
  forall (root : node) (cwd : list string) (a : app) (r : Request)
         (good rest : list string) (missing : string)
         (loc : list string) (t : Fmt.Time) (es : list (string * node))
         (fuel : nat),
    wf root = true ->
    Method r = MethodPost ->
    Form_files r = Ok (good ++ missing :: rest)%list ->
    let d := Join (dir a) (Clean (URL_Path r)) in
    resolve root cwd d = Some loc ->
    node_at root loc = Some (Dir t es) ->
    (forall nm, In nm good -> In nm (map fst es)) ->
    valid_name missing = true -> lookup_child es missing = None ->
    height root < fuel ->
    exists w',
      Extended.handler fuel (Tree.os root cwd) a (newResponse false) r
      = Some w'
      /\ status w' = StatusOK
      /\ w_body w'
         = (flat_map zip_entry (selected es good)
            ++ [ZipEnd;
                Bytes ("Error: " ++ ENOENT "open" (Join d missing)
                       ++ newline)])%list.
Proof.
  intros root cwd a r good rest missing loc t es fuel Hwf Hm Hf d Hres
         Hnode Hgood Hv Hmiss Hfuel.
  destruct (wf_node_at root loc (Dir t es) Hwf Hnode) as [Hwd Hhd].
  destruct (Join_normal (dir a) (Clean (URL_Path r)))
    as (rt & st & Hst & Ed); [right; apply Clean_nonempty|].
  subst d. rewrite Ed in *.
  destruct fuel as [|fuel]; [lia|].
  unfold Extended.handler, Extended.handlePost. rewrite Hm, Hf.
  change (String.eqb MethodPost MethodGet) with false.
  rewrite String.eqb_refl. cbv iota. rewrite Ed.
  set (w1 := Header_Set "Content-Disposition" _ _).
  assert (Hw1 : w_broken w1 = false) by reflexivity.
  set (body := fun zw name =>
         Extended.addToArchive (S fuel) (Tree.os root cwd) zw
           (render rt st) (Join (render rt st) name)).
  set (zw1 := write_chunks (flat_map zip_entry (selected es good)) w1).
  assert (Hgoodrun : Extended.for_range body good w1 = Some (zw1, None)).
  { subst zw1. unfold selected. rewrite flat_map_flat_map.
    apply for_range_chunks; [|exact Hw1].
    intros nm zw Hnm Hzw. specialize (Hgood nm Hnm).
    apply in_map_iff in Hgood. destruct Hgood as ([k c] & Ek & Hkc).
    cbn [fst] in Ek. subst k.
    rewrite (lookup_child_In es nm c); auto;
      [|cbn [wf] in Hwd; now apply andb_true_iff in Hwd].
    subst body. cbv beta.
    eapply addToArchive_entry; eauto. lia. }
  assert (Hrun : Extended.for_range body (good ++ missing :: rest)%list w1
                 = Some (zw1, Some (ENOENT "open"
                                      (Join (render rt st) missing)))).
  { eapply for_range_fails_at; [exact Hgoodrun|].
    subst body. cbv beta.
    eapply addToArchive_missing; eauto. }
  assert (Harch :
    Extended.archive (S fuel) (Tree.os root cwd) w1 (render rt st)
      (good ++ missing :: rest)%list
    = Some (zip_Close zw1,
            Some (ENOENT "open" (Join (render rt st) missing)))).
  { unfold Extended.archive. fold body.
    destruct (good ++ missing :: rest)%list as [|n0 ns0] eqn:En.
    - destruct good; discriminate.
    - rewrite Hrun. reflexivity. }
  rewrite Harch. eexists. split; [reflexivity|].
  assert (Hz : w_broken zw1 = false)
    by (subst zw1; now apply write_chunks_healthy).
  split.
  - rewrite status_http_Error_late by apply wrote_Write.
    unfold zip_Close. rewrite status_Write. subst zw1.
    now rewrite write_chunks_status.
  - rewrite http_Error_body
      by (unfold zip_Close; now apply Write_healthy).
    unfold zip_Close. rewrite Write_body by assumption.
    subst zw1. rewrite write_chunks_body by assumption.
    cbn [w_body w1 List.app]. now rewrite <- app_assoc.
Qed.

Lemma archive_stops_at_missing_name_witness :
  exists w',
    Extended.handler 6 Sample.sys Sample.here (newResponse false)
      (Sample.POST "/" ["asdf"; "nope"; "qwer"]) = Some w'
    /\ status w' = StatusOK
    /\ w_body w'
       = [ ZipHeader "asdf"; ZipData "content-A"; ZipEnd;
           Bytes ("Error: open nope: no such file or directory"
                  ++ newline) ].
Proof.
  assert (Hgood : forall nm, In nm ["asdf"] ->
                    In nm (map fst [ ("qwer", File "content-B" Sample.t0);
                                     ("asdf", File "content-A" Sample.t0);
                                     ("sub", Dir Sample.t0
                                        [ ("x", File "xx" Sample.t0);
                                          ("empty", Dir Sample.t0 []) ]) ])).
  { intros nm [<- | []]; cbn; auto. }
  exact (archive_stops_at_missing_name Sample.root Sample.cwd Sample.here
           (Sample.POST "/" ["asdf"; "nope"; "qwer"])
           ["asdf"] ["qwer"] "nope" Sample.cwd Sample.t0 _ 6
           eq_refl eq_refl eq_refl eq_refl eq_refl Hgood eq_refl eq_refl
           ltac:(cbv; lia)).
Defined.

(** X8.  A POST with no name selected to a path that is a regular file gives
    a zip with one entry: it is named [.] and holds the file. *)
Theorem post_on_regular_file :
  forall (root : node) (cwd : list string) (a : app) (r : Request)
         (loc : list string) (data : string) (mt : Fmt.Time) (fuel : nat),
    Method r = MethodPost ->
    Form_files r = Ok [] ->
    resolve root cwd (Join (dir a) (Clean (URL_Path r))) = Some loc ->
    node_at root loc = Some (File data mt) ->
    exists w',
      Extended.handler (S fuel) (Tree.os root cwd) a (newResponse false) r
      = Some w'
      /\ status w' = StatusOK
      /\ w_body w' = zip_stream [(".", data)].
Proof.
  intros root cwd a r loc data mt fuel Hm Hf Hres Hnode.
  unfold Extended.handler, Extended.handlePost. rewrite Hm, Hf.
  change (String.eqb MethodPost MethodGet) with false.
  rewrite String.eqb_refl. cbv iota.
  set (d := Join (dir a) (Clean (URL_Path r))) in *.
  set (w1 := Header_Set "Content-Disposition" _ _).
  assert (Hw1 : w_broken w1 = false) by reflexivity.
  assert (Hadd :
    Extended.addToArchive (S fuel) (Tree.os root cwd) w1 d d
    = Some (write_chunks (zip_entry (".", data)) w1, None)).
  { cbn [Extended.addToArchive].
    rewrite (Rel_same d d eq_refl).
    cbn [os_Open f_Stat f_ReadAll Tree.os]. unfold lookup.
    rewrite Hres, Hnode. cbn [fst snd info fi_IsDir].
    unfold zip_Create.
    rewrite (Write_healthy_eq (ZipHeader dot) w1 Hw1).
    destruct (Write_healthy (ZipHeader dot) w1 Hw1) as [_ Hw2].
    unfold io_Copy, zip_entry, zip_Write. cbn [fst snd].
    destruct (String.eqb data EmptyString); [reflexivity|].
    rewrite (Write_healthy_eq (ZipData data) _ Hw2). reflexivity. }
  unfold Extended.archive. rewrite Hadd. cbn [Extended.for_range].
  eexists. split; [reflexivity|]. split.
  - unfold zip_Close. now rewrite status_Write, write_chunks_status.
  - unfold zip_Close.
    rewrite Write_body by now apply write_chunks_healthy.
    rewrite write_chunks_body by assumption.
    unfold zip_stream. cbn [map concat w_body w1 List.app].
    now rewrite app_nil_r.
Qed.

Lemma post_on_regular_file_witness :
  exists w',
    Extended.handler 1 Sample.sys Sample.here (newResponse false)
      (Sample.POST "/asdf" []) = Some w'
    /\ status w' = StatusOK
    /\ w_body w' = [ZipHeader "."; ZipData "content-A"; ZipEnd].
Proof.
  exact (post_on_regular_file Sample.root Sample.cwd Sample.here
           (Sample.POST "/asdf" []) ["srv"; "www"; "asdf"] "content-A"
           Sample.t0 0 eq_refl eq_refl eq_refl eq_refl).
Defined.

(** X9.  On a well-formed tree the handler answers every request: the walk of
    [addToArchive] ends, being no deeper than the tree is high. *)
Theorem handler_returns_on_tree :
  forall (root : node) (cwd : list string) (a : app) (r : Request)
         (broken : bool) (fuel : nat),
    wf root = true -> height root < fuel ->
    exists w',
      Extended.handler fuel (Tree.os root cwd) a (newResponse broken) r
      = Some w'.
Proof.
  intros root cwd a r broken fuel Hwf Hf. unfold Extended.handler.
  destruct (String.eqb (Method r) MethodGet).
  { destruct (handleGet _ _ _ _ _) as [w1 [e|]]; eauto. }
  destruct (String.eqb (Method r) MethodPost); [|eauto].
  unfold Extended.handlePost.
  destruct (Form_files r) as [names|e]; [|eauto].
  destruct (Join_normal (dir a) (Clean (URL_Path r)))
    as (rt & st & Hst & Ed); [right; apply Clean_nonempty|].
  rewrite Ed.
  destruct (archive_returns root cwd rt st names fuel
              (Header_Set "Content-Disposition"
                 (Extended.content_disposition (render rt st))
                 (Header_Set "Cache-Control" "no-store"
                    (newResponse broken))) Hwf Hf Hst)
    as ([zw [e|]] & E); rewrite E; eauto.
Qed.

Lemma handler_returns_on_tree_witness :
  exists w',
    Extended.handler 6 (Tree.os Sample.root Sample.cwd) Sample.here
      (newResponse true) (Sample.POST "/" ["../.."; "sub"]) = Some w'.
Proof.
  exact (handler_returns_on_tree Sample.root Sample.cwd Sample.here
           (Sample.POST "/" ["../.."; "sub"]) true 6 eq_refl
           ltac:(cbv; lia)).
Defined.

End ArchiveEdgeClaims.

Section CommandLine.
Import filepath PathSpec PathFacts.

Lemma cut_equals_none s :
  flag.has_equals s = false -> flag.cut_equals s = (s, None).
Proof.
  induction s as [|c r IH]; intros H; [reflexivity|].
  cbn [flag.has_equals] in H. apply orb_false_iff in H.
  destruct H as [Hc Hr]. cbn [flag.cut_equals].
  rewrite Hc, (IH Hr). reflexivity.
Qed.

(** X11.  The command line round trip: the arguments [-a ADDR], [-q] when quiet
    and then the directory are parsed back to the same settings, for every
    address and every directory that does not itself look like a flag. *)
Theorem fromArgs_round_trip :
  forall a : app,
    flag.is_flag (dir a) = false -> fromArgs (args_of a) = Ok a.
Proof.
  intros [d q ad] Hd. cbn [dir] in Hd.
  unfold fromArgs, args_of. cbn [dir quiet addr List.app].
  cbn [flag.Parse]. change (flag.is_flag "-a") with true. cbn [negb].
  change (String.eqb "-a" "--") with false. cbv iota.
  change (flag.flag_name "-a") with "a".
  change (flag.bad_name "a") with false. cbv iota.
  change (flag.cut_equals EmptyString) with (EmptyString, @None string).
  cbv iota beta. change (flag.formal "a") with (Some flag.StringFlag).
  cbv iota.
  destruct q; cbn [List.app flag.Parse].
  - change (flag.is_flag "-q") with true. cbn [negb].
    change (String.eqb "-q" "--") with false. cbv iota.
    change (flag.flag_name "-q") with "q".
    change (flag.bad_name "q") with false. cbv iota.
    change (flag.cut_equals EmptyString) with (EmptyString, @None string).
    cbv iota beta. change (flag.formal "q") with (Some flag.BoolFlag).
    cbv iota. rewrite Hd. reflexivity.
  - rewrite Hd. reflexivity.
Qed.

Lemma fromArgs_round_trip_witness :
  fromArgs ["-a"; "-q"; "-q"; "/home"] = Ok (mkApp "/home" true "-q").
Proof. exact (fromArgs_round_trip (mkApp "/home" true "-q") eq_refl). Defined.

(** X12.  A flag that is not defined ends the program with exit status 2
    before the server is started, whatever follows it on the command line:
    the status does not depend on what the server would do. *)
Theorem CLI_undefined_flag :
  forall (run : app -> option error) (name : string) (rest : list string),
    flag.bad_name name = false -> flag.has_equals name = false ->
    flag.formal name = None ->
    CLI run (("-" ++ name) :: rest) = 2%Z
    /\ exists e, fromArgs (("-" ++ name) :: rest) = Err e.
Proof.
  intros run name rest Hb He Hf.
  destruct name as [|c tl]; [discriminate Hb|].
  cbn [flag.bad_name] in Hb. apply orb_false_iff in Hb.
  destruct Hb as [Hc1 Hc2].
  cbn [flag.has_equals] in He. apply orb_false_iff in He.
  destruct He as [_ He].
  assert (Hp : exists e,
            flag.Parse "localhost:9876" false
              (String "-"%char (String c tl) :: rest) = Err e).
  { cbn [flag.Parse flag.is_flag]. change (Ascii.eqb "-" "-") with true.
    cbn [negb].
    assert (E1 : String.eqb (String "-"%char (String c tl)) "--" = false).
    { cbn [String.eqb]. change (Ascii.eqb "-" "-") with true.
      rewrite Hc1. reflexivity. }
    rewrite E1. cbn [flag.flag_name]. rewrite Hc1.
    cbn [flag.bad_name]. rewrite Hc1, Hc2. cbn [orb].
    rewrite (cut_equals_none tl He). rewrite Hf.
    destruct (String.eqb (String c tl) "help" || String.eqb (String c tl) "h");
      eexists; reflexivity. }
  destruct Hp as [e Hp].
  change ("-" ++ String c tl) with (String "-"%char (String c tl)).
  unfold CLI, fromArgs. rewrite Hp. split; [reflexivity|eauto].
Qed.

Lemma CLI_undefined_flag_witness :
  CLI (fun _ => None) ["-port"; "8080"; "/home"] = 2%Z.
Proof.
  exact (proj1 (CLI_undefined_flag (fun _ => None) "port" ["8080"; "/home"]
                  eq_refl eq_refl eq_refl)).
Defined.

(** X13.  The empty string as directory argument makes the root of the file
    system the served directory: it is taken as it is, and every URL path
    that begins with a slash then resolves to itself, cleaned, as an
    absolute path. *)
Theorem empty_directory_serves_file_system_root :
  fromArgs [EmptyString] = Ok (mkApp EmptyString false "localhost:9876")
  /\ forall url : string,
       rooted url = true ->
       Join EmptyString (Clean url) = Clean url
       /\ rooted (Clean url) = true.
Proof.
  split; [reflexivity|]. intros url Hr.
  destruct (Clean_normal url) as (st & Hst & E). rewrite Hr in *.
  rewrite E. unfold Join. cbn [String.eqb negb].
  pose proof (render_nonempty true st Hst) as Hne.
  apply String.eqb_neq in Hne. rewrite Hne. cbn [negb].
  rewrite Clean_render by assumption.
  split; [reflexivity|now apply rooted_render].
Qed.

Lemma empty_directory_serves_file_system_root_witness :
  Join EmptyString (Clean "/etc/../etc/passwd") = "/etc/passwd".
Proof.
  exact (proj1 (proj2 empty_directory_serves_file_system_root
                  "/etc/../etc/passwd" eq_refl)).
Defined.

End CommandLine.
